(** * amtool: a verification development for the copy engine

    The development embeds [src/shared.ts] (locations, path access, the
    value-type policy of [writeToLocation], the AMFS tree codec and the
    error channel) and the document-source branch of the [cp] command
    ([cpFromAutomerge]), and proves properties of the embedding. *)

From Stdlib Require Import ZArith Ascii String List Lia Bool DecimalString.
From stdpp Require Import base option list strings gmap.

Import ListNotations.
Set Warnings "-register-all".
Local Open Scope list_scope.
Local Open Scope string_scope.

(** ** JavaScript string primitives used by the program *)

Module JsString.

Definition slash : ascii := "/"%char.
Definition newline : ascii := "010"%char.
Definition dquote : ascii := "034"%char.
Definition backslash : ascii := "092"%char.

Definition str1 (c : ascii) : string := String c EmptyString.

(** [s.split(sep)] for a one-character separator: the result always has at
    least one element, and [n] separators give [n + 1] pieces. *)
Fixpoint split (sep : ascii) (s : string) : list string :=
  match s with
  | EmptyString => [EmptyString]
  | String c r =>
      if Ascii.eqb c sep then EmptyString :: split sep r
      else match split sep r with
           | [] => [str1 c]
           | h :: t => String c h :: t
           end
  end.

(** [xs.join(sep)]. *)
Fixpoint join (sep : string) (xs : list string) : string :=
  match xs with
  | [] => EmptyString
  | [x] => x
  | x :: rest => x ++ sep ++ join sep rest
  end.

(** [s.startsWith(p)]. *)
Definition startsWith (s p : string) : bool := String.prefix p s.

(** Does the character occur in the string? *)
Fixpoint mem (c : ascii) (s : string) : bool :=
  match s with
  | EmptyString => false
  | String d r => Ascii.eqb d c || mem c r
  end.

(** Does the string end with the character? *)
Fixpoint endsWithChar (c : ascii) (s : string) : bool :=
  match s with
  | EmptyString => false
  | String d EmptyString => Ascii.eqb d c
  | String _ r => endsWithChar c r
  end.

(** The text before the first occurrence of [c] (the whole text when [c]
    does not occur). *)
Fixpoint before (c : ascii) (s : string) : string :=
  match s with
  | EmptyString => EmptyString
  | String d r => if Ascii.eqb d c then EmptyString else String d (before c r)
  end.

(** The text after the first occurrence of [c], when there is one. *)
Fixpoint after (c : ascii) (s : string) : option string :=
  match s with
  | EmptyString => None
  | String d r => if Ascii.eqb d c then Some r else after c r
  end.

End JsString.

(** ** Locations *)

Inductive Location : Type :=
| LocationAutomerge (docUrl : string) (path : list string)
| LocationFile (path : string)
| LocationPipe.

Inductive ValueType : Type := VT_fs | VT_raw | VT_json.

Definition automerge_prefix : string := "automerge:".

Definition parseLocation (s : string) : Location :=
  if String.eqb s "-" then LocationPipe
  else if JsString.startsWith s automerge_prefix then
    match JsString.split JsString.slash s with
    | docUrl :: path => LocationAutomerge docUrl path
    | [] => LocationAutomerge EmptyString []
    end
  else LocationFile s.

(** The [type] tag of a location, as the string the source stores. *)
Definition location_type (l : Location) : string :=
  match l with
  | LocationAutomerge _ _ => "automerge"
  | LocationFile _ => "file"
  | LocationPipe => "pipe"
  end.

Definition stringifyLocation (l : Location) : string :=
  match l with
  | LocationAutomerge docUrl path =>
      JsString.join (JsString.str1 JsString.slash) (docUrl :: path)
  | LocationFile path => path
  | LocationPipe => location_type l
  end.

(** ** JavaScript values

    The values the program copies: the JSON-like values of the value-type
    policy, [undefined] (what a missing property reads as) and [Uint8Array]
    byte sequences.  An object is the list of its own enumerable properties
    in enumeration order; an array is an object that also carries its
    [length], so that holes and named properties are representable.
    Numbers are the integer-valued ones; inherited (prototype) properties
    such as methods are not part of the model. *)

Inductive value : Type :=
| VUndefined
| VNull
| VBool (b : bool)
| VNum (n : Z)
| VStr (s : string)
| VBytes (bs : list Byte.byte)
| VObj (props : list (string * value))
| VArr (len : N) (props : list (string * value)).

Inductive exn : Type :=
| AMTError (message : string)
| TypeError
| RangeError
| HostError (message : string)
| Unmodelled.

(** The result of a pure piece of JavaScript: a value or a thrown exception. *)
Inductive result (A : Type) : Type :=
| Ok (a : A)
| Throw (e : exn).
Arguments Ok {A} a.
Arguments Throw {A} e.

Definition rbind {A B : Type} (r : result A) (k : A -> result B) : result B :=
  match r with
  | Ok a => k a
  | Throw e => Throw e
  end.

(** Decimal rendering of a non-negative integer, as [String(i)]. *)
Definition decimal (n : N) : string := NilZero.string_of_uint (N.to_uint n).

(** Rendering of an integer-valued number, as [String(n)]. *)
Definition number_to_string (n : Z) : string := NilZero.string_of_int (Z.to_int n).

Definition max_array_index : N := 4294967295.

(** An array index is the canonical decimal numeral of an integer below
    [2^32 - 1]. *)
Definition parse_index (k : string) : option N :=
  match NilZero.uint_of_string k with
  | Some d =>
      let n := N.of_uint d in
      if String.eqb (decimal n) k && N.ltb n max_array_index then Some n else None
  | None => None
  end.

Fixpoint lookup_prop {A : Type} (k : string) (ps : list (string * A)) : option A :=
  match ps with
  | [] => None
  | (k', v) :: rest => if String.eqb k' k then Some v else lookup_prop k rest
  end.

Definition has_key {A : Type} (k : string) (ps : list (string * A)) : bool :=
  match lookup_prop k ps with Some _ => true | None => false end.

(** Replace the value of the first property named [k], keeping its place. *)
Fixpoint replace_prop (k : string) (v : value) (ps : list (string * value))
  : list (string * value) :=
  match ps with
  | [] => []
  | (k', v') :: rest =>
      if String.eqb k' k then (k', v) :: rest else (k', v') :: replace_prop k v rest
  end.

(** Add a new property whose name is the array index [i]: index-named
    properties enumerate first, in ascending numeric order. *)
Fixpoint insert_index (i : N) (k : string) (v : value) (ps : list (string * value))
  : list (string * value) :=
  match ps with
  | [] => [(k, v)]
  | (k', v') :: rest =>
      match parse_index k' with
      | Some j => if N.ltb j i then (k', v') :: insert_index i k v rest
                  else (k, v) :: ps
      | None => (k, v) :: ps
      end
  end.

(** [o[k] = v] on the property list of an object. *)
Definition assign_prop (k : string) (v : value) (ps : list (string * value))
  : list (string * value) :=
  if has_key k ps then replace_prop k v ps
  else match parse_index k with
       | Some i => insert_index i k v ps
       | None => (ps ++ [(k, v)])%list
       end.

Definition byte_value (b : Byte.byte) : value := VNum (Z.of_N (Byte.to_N b)).

Definition string_length (s : string) : N := N.of_nat (String.length s).

(** The property names every object inherits from [Object.prototype]. *)
Definition object_prototype_names : list string :=
  ["constructor"; "__defineGetter__"; "__defineSetter__"; "hasOwnProperty";
   "__lookupGetter__"; "__lookupSetter__"; "isPrototypeOf";
   "propertyIsEnumerable"; "toString"; "valueOf"; "__proto__"; "toLocaleString"].

Definition inherited_name (k : string) : bool :=
  existsb (String.eqb k) object_prototype_names.

(** The property read [v[k]], on own properties: a name that is not an own
    property reads as [undefined].  The source's read also finds the names
    a value inherits from its prototype, which are functions and prototype
    objects, not values of this model; the properties below that read a
    name an object does not have as its own are stated for names outside
    [inherited_name]. *)
Definition get_prop (v : value) (k : string) : result value :=
  match v with
  | VUndefined | VNull => Throw TypeError
  | VBool _ | VNum _ => Ok VUndefined
  | VStr s =>
      if String.eqb k "length" then Ok (VNum (Z.of_N (string_length s)))
      else match parse_index k with
           | Some i => match String.get (N.to_nat i) s with
                       | Some c => Ok (VStr (JsString.str1 c))
                       | None => Ok VUndefined
                       end
           | None => Ok VUndefined
           end
  | VBytes bs =>
      if String.eqb k "length" then Ok (VNum (Z.of_nat (List.length bs)))
      else match parse_index k with
           | Some i => match nth_error bs (N.to_nat i) with
                       | Some b => Ok (byte_value b)
                       | None => Ok VUndefined
                       end
           | None => Ok VUndefined
           end
  | VObj ps =>
      match lookup_prop k ps with Some x => Ok x | None => Ok VUndefined end
  | VArr len ps =>
      match lookup_prop k ps with
      | Some x => Ok x
      | None => if String.eqb k "length" then Ok (VNum (Z.of_N len)) else Ok VUndefined
      end
  end.

(** Properties of an array that survive [a.length = n]. *)
Definition truncate_props (n : N) (ps : list (string * value)) : list (string * value) :=
  List.filter (fun p => match parse_index (fst p) with
                        | Some i => N.ltb i n
                        | None => true
                        end) ps.

(** The property write [o[k] = v] of strict-mode code (modules are strict):
    it throws on [null], [undefined] and primitives.  Writes that need a
    numeric coercion of [v] (into a typed array, or of a non-number into
    [length]) are outside the model.  Every name is stored as an own
    property; in the source an assignment to the name "__proto__" that is
    not an own property goes to the inherited setter instead, so the
    properties below about what a write to a plain object stores are stated
    for a last key other than "__proto__".  Inside [handle.change] the
    target is the document proxy of the library, which is taken to store
    every name. *)
Definition set_prop (o : value) (k : string) (v : value) : result value :=
  match o with
  | VUndefined | VNull | VBool _ | VNum _ | VStr _ => Throw TypeError
  | VBytes _ => Throw Unmodelled
  | VObj ps => Ok (VObj (assign_prop k v ps))
  | VArr len ps =>
      if String.eqb k "length" then
        match v with
        | VNum n =>
            if (Z.leb 0 n && Z.ltb n 4294967296)%bool
            then Ok (VArr (Z.to_N n) (truncate_props (Z.to_N n) ps))
            else Throw RangeError
        | _ => Throw Unmodelled
        end
      else match parse_index k with
           | Some i => Ok (VArr (N.max len (i + 1)) (assign_prop k v ps))
           | None => Ok (VArr len (assign_prop k v ps))
           end
  end.

(** [!!v] *)
Definition truthy (v : value) : bool :=
  match v with
  | VUndefined | VNull => false
  | VBool b => b
  | VNum n => negb (Z.eqb n 0)
  | VStr s => negb (String.eqb s EmptyString)
  | VBytes _ | VObj _ | VArr _ _ => true
  end.

(** [typeof v] *)
Definition typeof (v : value) : string :=
  match v with
  | VUndefined => "undefined"
  | VNull | VBytes _ | VObj _ | VArr _ _ => "object"
  | VBool _ => "boolean"
  | VNum _ => "number"
  | VStr _ => "string"
  end.

(** [v instanceof Uint8Array] *)
Definition instanceof_Uint8Array (v : value) : bool :=
  match v with VBytes _ => true | _ => false end.

(** The index-named entries of a sequence, [("0", x0); ("1", x1); ...]. *)
Fixpoint indexed {A : Type} (from : N) (xs : list A) : list (string * A) :=
  match xs with
  | [] => []
  | x :: rest => (decimal from, x) :: indexed (N.succ from) rest
  end.

(** [Object.entries(v)] of an object. *)
Definition Object_entries (v : value) : list (string * value) :=
  match v with
  | VObj ps | VArr _ ps => ps
  | VBytes bs => indexed 0 (List.map byte_value bs)
  | VStr s => indexed 0 (List.map (fun c => VStr (JsString.str1 c)) (list_ascii_of_string s))
  | _ => []
  end.

(** [Object.values(v)] *)
Definition Object_values (v : value) : list value := List.map snd (Object_entries v).

(** The keys a [for (const key in v)] loop visits. *)
Definition for_in_keys (v : value) : list string := List.map fst (Object_entries v).

(** [k in v] for an object [v]. *)
Definition has_property (k : string) (v : value) : bool :=
  match v with
  | VObj ps => has_key k ps
  | VArr _ ps => has_key k ps || String.eqb k "length"
  | VBytes bs =>
      String.eqb k "length"
      || match parse_index k with
         | Some i => N.ltb i (N.of_nat (List.length bs))
         | None => false
         end
  | _ => false
  end.

(** The array literal [[x0, x1, ...]]. *)
Definition array_of (xs : list value) : value :=
  VArr (N.of_nat (List.length xs)) (indexed 0 xs).

(** ** Path access *)

(** [getAtPath]: step into the property named by each key in turn. *)
Fixpoint getAtPath (doc : value) (path : list string) : result value :=
  match path with
  | [] => Ok doc
  | key :: rest => rbind (get_prop doc key) (fun value => getAtPath value rest)
  end.

(** [path.slice(0, -1)] *)
Definition slice_init (path : list string) : list string := removelast path.

(** [path[path.length - 1]] used as a property key: on the empty path the
    read gives [undefined], whose property key is the text "undefined". *)
Definition last_key (path : list string) : string := List.last path "undefined".

(** Store [child'] back as the property [key] of [parent].  The source
    mutates objects in place; on a tree of values the same store is obtained
    by rebuilding the spine that the walk [doclet = doclet[key]] followed.
    Only an own property of an object or array can hold a value that a
    later write changes, so nothing is rebuilt elsewhere. *)
Definition put_back (parent : value) (key : string) (child' : value) : value :=
  match parent with
  | VObj ps => VObj (replace_prop key child' ps)
  | VArr len ps => VArr len (replace_prop key child' ps)
  | _ => parent
  end.

(** Walk [keys] from [doc] as [getAtPath] does and run [f] on the value
    reached; the result is the updated [doc]. *)
Fixpoint update_at (doc : value) (keys : list string) (f : value -> result value)
  : result value :=
  match keys with
  | [] => f doc
  | key :: rest =>
      rbind (get_prop doc key) (fun doclet =>
      rbind (update_at doclet rest f) (fun doclet' =>
      Ok (put_back doc key doclet')))
  end.

(** [setAtPath]: walk all keys but the last, then assign under the last. *)
Definition setAtPath (doc : value) (path : list string) (v : value) : result value :=
  update_at doc (slice_init path) (fun doclet => set_prop doclet (last_key path) v).

(** ** JSON.stringify with the program's replacer *)

Definition base64_alphabet : string :=
  "ABCDEFGHIJKLMNOPQRSTUVWXYZabcdefghijklmnopqrstuvwxyz0123456789+/".

Definition base64_digit (n : N) : ascii :=
  match String.get (N.to_nat n) base64_alphabet with
  | Some c => c
  | None => "="%char
  end.

(** [Buffer.from(bytes).toString("base64")] on byte values. *)
Fixpoint base64_of (bs : list N) : string :=
  match bs with
  | [] => EmptyString
  | [a] =>
      String (base64_digit (N.shiftr a 2))
        (String (base64_digit (N.shiftl (N.land a 3) 4)) "==")
  | [a; b] =>
      String (base64_digit (N.shiftr a 2))
        (String (base64_digit (N.lor (N.shiftl (N.land a 3) 4) (N.shiftr b 4)))
           (String (base64_digit (N.shiftl (N.land b 15) 2)) "="))
  | a :: b :: c :: rest =>
      String (base64_digit (N.shiftr a 2))
        (String (base64_digit (N.lor (N.shiftl (N.land a 3) 4) (N.shiftr b 4)))
           (String (base64_digit (N.lor (N.shiftl (N.land b 15) 2) (N.shiftr c 6)))
              (String (base64_digit (N.land c 63)) (base64_of rest))))
  end.

Definition base64 (bs : list Byte.byte) : string := base64_of (List.map Byte.to_N bs).

(** The [replacer] of shared.ts: byte sequences become base64 strings. *)
Definition replacer (key : string) (v : value) : value :=
  if instanceof_Uint8Array v
  then match v with VBytes bs => VStr (base64 bs) | _ => v end
  else v.

Definition hex_digit (n : N) : ascii :=
  match String.get (N.to_nat n) "0123456789abcdef" with
  | Some c => c
  | None => "0"%char
  end.

(** The JSON escape of one character. *)
Definition quote_char (c : ascii) : string :=
  let n := N_of_ascii c in
  if Ascii.eqb c JsString.dquote then String JsString.backslash (JsString.str1 JsString.dquote)
  else if Ascii.eqb c JsString.backslash then String JsString.backslash (JsString.str1 JsString.backslash)
  else if N.eqb n 8 then String JsString.backslash "b"
  else if N.eqb n 9 then String JsString.backslash "t"
  else if N.eqb n 10 then String JsString.backslash "n"
  else if N.eqb n 12 then String JsString.backslash "f"
  else if N.eqb n 13 then String JsString.backslash "r"
  else if N.ltb n 32 then
    String JsString.backslash
      ("u00" ++ String (hex_digit (N.shiftr n 4)) (JsString.str1 (hex_digit (N.land n 15))))
  else JsString.str1 c.

Fixpoint quote_body (s : string) : string :=
  match s with
  | EmptyString => EmptyString
  | String c r => quote_char c ++ quote_body r
  end.

(** [QuoteJSONString] *)
Definition quote (s : string) : string :=
  String JsString.dquote (quote_body s ++ JsString.str1 JsString.dquote).

(** The serialization of a value that is not an object after the replacer
    ran; [None] is JavaScript's [undefined] (nothing is produced). *)
Definition serialize_primitive (v : value) : option string :=
  match v with
  | VNull => Some "null"
  | VBool true => Some "true"
  | VBool false => Some "false"
  | VNum n => Some (number_to_string n)
  | VStr s => Some (quote s)
  | _ => None
  end.

(** The brackets and separators around the members of an object or array. *)
Definition wrap_members (gap stepback indent opening closing : string)
  (partial : list string) : string :=
  match partial with
  | [] => opening ++ closing
  | _ =>
      if String.eqb gap EmptyString
      then opening ++ JsString.join "," partial ++ closing
      else opening ++ JsString.str1 JsString.newline ++ indent
           ++ JsString.join ("," ++ JsString.str1 JsString.newline ++ indent) partial
           ++ JsString.str1 JsString.newline ++ stepback ++ closing
  end.

Definition member (gap key str : string) : string :=
  quote key ++ ":" ++ (if String.eqb gap EmptyString then EmptyString else " ") ++ str.

Definition array_element (sers : list (string * option string)) (i : N) : string :=
  match lookup_prop (decimal i) sers with
  | Some (Some str) => str
  | _ => "null"
  end.

(** The indices [0 .. len - 1] of an array. *)
Definition indices (len : N) : list N := List.map N.of_nat (List.seq 0 (N.to_nat len)).

Section Members.

Variable A : Type.
Variable ser : string -> A -> option string.

(** The members of an object: properties whose value serializes to nothing
    are left out. *)
Fixpoint object_members (gap : string) (ps : list (string * A)) : list string :=
  match ps with
  | [] => []
  | (k, x) :: rest =>
      match ser k x with
      | Some str => member gap k str :: object_members gap rest
      | None => object_members gap rest
      end
  end.

(** The serialization of each property of an array, by name. *)
Fixpoint serialized_props (ps : list (string * A)) : list (string * option string) :=
  match ps with
  | [] => []
  | (k, x) :: rest => (k, ser k x) :: serialized_props rest
  end.

End Members.
Arguments object_members {A} ser gap ps.
Arguments serialized_props {A} ser ps.

(** [SerializeJSONProperty] with the replacer of the program: objects and
    arrays, which the replacer returns as they are, are serialized member
    by member; every other value goes through the replacer first. *)
Fixpoint serialize (gap indent key : string) (v : value) : option string :=
  match v with
  | VObj ps =>
      let stepback := indent in
      let indent := indent ++ gap in
      Some (wrap_members gap stepback indent "{" "}"
              (object_members (serialize gap indent) gap ps))
  | VArr len ps =>
      let stepback := indent in
      let indent := indent ++ gap in
      Some (wrap_members gap stepback indent "[" "]"
              (List.map (array_element (serialized_props (serialize gap indent) ps))
                        (indices len)))
  | _ => serialize_primitive (replacer key v)
  end.

Fixpoint spaces (n : nat) : string :=
  match n with
  | O => EmptyString
  | S m => String " "%char (spaces m)
  end.

(** [JSON.stringify(v, replacer, space)]; [space] is [undefined] or a
    number, of which at most 10 count. *)
Definition JSON_stringify (v : value) (space : option nat) : option string :=
  let gap := match space with
             | Some n => spaces (Nat.min 10 n)
             | None => EmptyString
             end in
  serialize gap EmptyString EmptyString v.

(** [x + "\n"] where [x] is a string or [undefined]. *)
Definition concat_newline (x : option string) : string :=
  match x with
  | Some s => s ++ JsString.str1 JsString.newline
  | None => "undefined" ++ JsString.str1 JsString.newline
  end.

(** ** The AMFS tree codec: classification *)

Definition typeof_is (v : value) (t : string) : bool := String.eqb (typeof v) t.

(** [isAMFSFile]: the conjunction is evaluated left to right, so both
    properties are read only from a non-null object. *)
Definition isAMFSFile (node : value) : bool :=
  if truthy node && typeof_is node "object"
     && has_property "contentType" node && has_property "contents" node
  then match get_prop node "contentType", get_prop node "contents" with
       | Ok contentType, Ok contents =>
           typeof_is contentType "string"
           && (typeof_is contents "string" || instanceof_Uint8Array contents)
       | _, _ => false
       end
  else false.

(** [isAMFS], with the call of [isAMFSDirectory] unfolded so that the
    recursion through [Object.values(node).every(isAMFS)] is structural:
    the values of an object or array are its property values, and those of
    a byte sequence are numbers, which [isAMFS] rejects.  [isAMFS_unfold]
    below recovers the source line. *)
Fixpoint isAMFS (node : value) : bool :=
  isAMFSFile node
  || (truthy node && typeof_is node "object"
      && match node with
         | VObj ps | VArr _ ps => forallb (fun p => isAMFS (snd p)) ps
         | VBytes bs => forallb (fun _ => false) bs
         | _ => true
         end).

Definition isAMFSDirectory (node : value) : bool :=
  truthy node && typeof_is node "object" && forallb isAMFS (Object_values node).

(** ** The world the program acts on *)

(** Calls the program makes to the host, in the order it makes them. *)
Inductive event : Type :=
| EvStdoutWrite (chunk : value)
| EvWriteFile (path : string) (data : value)
| EvWriteFileSync (path : string) (data : value)
| EvEnsureDirSync (path : string)
| EvConsoleError (message : string).

(** The documents of the repo, by URL, and the host calls made so far. *)
Record world : Type := mkWorld {
  docs : gmap string value;
  events : list event
}.

Inductive outcome (A : Type) : Type :=
| Returned (a : A)
| Thrown (e : exn)
| Exited (code : Z).
Arguments Returned {A} a.
Arguments Thrown {A} e.
Arguments Exited {A} code.

Definition M (A : Type) : Type := world -> outcome A * world.

Definition ret {A : Type} (a : A) : M A := fun w => (Returned a, w).

Definition bind {A B : Type} (m : M A) (k : A -> M B) : M B :=
  fun w =>
    match m w with
    | (Returned a, w') => k a w'
    | (Thrown e, w') => (Thrown e, w')
    | (Exited c, w') => (Exited c, w')
    end.

Declare Scope amt_scope.
Delimit Scope amt_scope with amt.
Notation "x <- m ;; k" := (bind m (fun x => k))
  (at level 100, m at next level, right associativity) : amt_scope.
Notation "m ;;; k" := (bind m (fun _ => k))
  (at level 100, right associativity) : amt_scope.

Definition throw {A : Type} (e : exn) : M A := fun w => (Thrown e, w).

Definition process_exit {A : Type} (code : Z) : M A := fun w => (Exited code, w).

Definition emit (e : event) : M unit :=
  fun w => (Returned tt, mkWorld (docs w) (events w ++ [e])%list).

Definition lift {A : Type} (r : result A) : M A :=
  match r with
  | Ok a => ret a
  | Throw e => throw e
  end.

(** [await wait(ms)]: time is not part of the model. *)
Definition wait (ms : Z) : M unit := ret tt.

(** [handle.change(fn)]: the mutation runs on the current document and is
    committed only when [fn] returns; a document the repo does not have
    makes the handle fail with an error of the repo's own. *)
Definition handle_change (docUrl : string) (fn : value -> result value) : M unit :=
  fun w =>
    match docs w !! docUrl with
    | Some doc =>
        match fn doc with
        | Ok doc' => (Returned tt, mkWorld (<[docUrl := doc']> (docs w)) (events w))
        | Throw e => (Thrown e, w)
        end
    | None => (Thrown (HostError "document is not ready"), w)
    end.

(** [await handle.doc()] *)
Definition handle_doc (docUrl : string) : M (option value) :=
  fun w => (Returned (docs w !! docUrl), w).

(** ** The AMFS tree codec: materialization *)

Definition child_path (path name : string) : string := path ++ "/" ++ name.

Section ForEach.

Variable f : string -> value -> M unit.

(** [entries.forEach(([name, node]) => f(name, node))] *)
Fixpoint forEach (ps : list (string * value)) : M unit :=
  match ps with
  | [] => ret tt
  | (name, node) :: rest => bind (f name node) (fun _ => forEach rest)
  end.

End ForEach.

(** [writeAMFS].  Its parameter type admits the values that passed
    [isAMFS]; on those only the first three cases of the inner match can
    occur.  On a non-empty string the source would recurse without bound,
    which the model does not represent. *)
Fixpoint writeAMFS (directoryOrFile : value) (path : string) : M unit :=
  if isAMFSFile directoryOrFile then
    match get_prop directoryOrFile "contents" with
    | Ok contents => emit (EvWriteFileSync path contents)
    | Throw e => throw e
    end
  else
    bind (emit (EvEnsureDirSync path)) (fun _ =>
    match directoryOrFile with
    | VObj ps | VArr _ ps =>
        forEach (fun name node => writeAMFS node (child_path path name)) ps
    | VBytes bs =>
        forEach (fun name _ => emit (EvEnsureDirSync (child_path path name)))
                (Object_entries directoryOrFile)
    | VBool _ | VNum _ | VStr EmptyString => ret tt
    | VStr _ => throw Unmodelled
    | VUndefined | VNull => throw TypeError
    end).

(** ** The value-type policy *)

Definition quoted (s : string) : string :=
  String JsString.dquote (s ++ JsString.str1 JsString.dquote).

Definition msg_fs_only_file : string :=
  "value type " ++ quoted "fs" ++ " can be only written to file system".
Definition msg_not_amfs : string :=
  "value must be an automerge file object to copy in fs mode".
Definition msg_not_raw : string :=
  "value must be a string or bytes to copy in raw mode".
Definition msg_root_object : string :=
  "only an object can be written to a document root".
Definition msg_raw_am_to_am : string :=
  "raw copy from automerge to automerge doesn't really make sense".

(** The loop [for (const key in val) doc[key] = val[key]]. *)
Fixpoint assign_keys (val : value) (keys : list string) (doc : value) : result value :=
  match keys with
  | [] => Ok doc
  | key :: rest =>
      rbind (get_prop val key) (fun x =>
      rbind (set_prop doc key x) (fun doc' =>
      assign_keys val rest doc'))
  end.

(** The mutation [writeToLocation] hands to [handle.change]. *)
Definition change_callback (path : list string) (val : value) (doc : value)
  : result value :=
  if Nat.eqb (List.length path) 0 then
    if negb (typeof_is val "object" && negb (match val with VNull => true | _ => false end))
    then Throw (AMTError msg_root_object)
    else assign_keys val (for_in_keys val) doc
  else
    update_at doc (slice_init path) (fun doclet => set_prop doclet (last_key path) val).

Definition is_file (l : Location) : bool :=
  match l with LocationFile _ => true | _ => false end.
Definition is_pipe (l : Location) : bool :=
  match l with LocationPipe => true | _ => false end.
Definition is_automerge (l : Location) : bool :=
  match l with LocationAutomerge _ _ => true | _ => false end.

Local Open Scope amt_scope.

Definition writeToLocation (dst : Location) (val : value) (type : ValueType) : M unit :=
  match type with
  | VT_fs =>
      match dst with
      | LocationFile path =>
          if negb (isAMFS val) then throw (AMTError msg_not_amfs)
          else writeAMFS val path
      | _ => throw (AMTError msg_fs_only_file)
      end
  | _ =>
      match dst with
      | LocationFile _ | LocationPipe =>
          stringVal <-
            match type with
            | VT_raw =>
                if negb (typeof_is val "string") && negb (instanceof_Uint8Array val)
                then throw (AMTError msg_not_raw)
                else ret val
            | _ =>
                ret (VStr (concat_newline
                             (JSON_stringify val (if is_pipe dst then None else Some 2%nat))))
            end ;;
          match dst with
          | LocationFile path => emit (EvWriteFile path stringVal)
          | _ => emit (EvStdoutWrite stringVal)
          end
      | LocationAutomerge docUrl path =>
          handle_change docUrl (change_callback path val)
      end
  end.

(** ** The error channel *)

Definition catchAMTErrors (f : M unit) (fatal : bool) : M unit :=
  fun w =>
    match f w with
    | (Thrown (AMTError message), w') =>
        (emit (EvConsoleError ("error: " ++ message)) ;;;
         if fatal then process_exit 1 else ret tt) w'
    | other => other
    end.

(** ** Copying from a document *)

Section CpFromAutomerge.

Variable src_docUrl : string.
Variable src_path : list string.
Variable dst : Location.
Variable type : ValueType.

Definition onDoc (doc : value) : M unit :=
  value <- lift (getAtPath doc src_path) ;;
  writeToLocation dst value type ;;;
  if negb (is_pipe dst)
  then emit (EvConsoleError
               ("wrote " ++ stringifyLocation (LocationAutomerge src_docUrl src_path)
                ++ " to " ++ stringifyLocation dst))
  else ret tt.

(** The listener registered on ["change"]; the event carries the new state
    of the source document, which is also what the repo now holds. *)
Definition on_change (e_doc : value) : M unit :=
  (fun w => (Returned tt, mkWorld (<[src_docUrl := e_doc]> (docs w)) (events w))) ;;;
  catchAMTErrors (onDoc e_doc) false.

(** The change events delivered while the process runs, in delivery order.
    A listener whose promise rejects leaves an unhandled rejection, which
    ends the process: no later event is processed. *)
Fixpoint deliver (changes : list value) : M unit :=
  match changes with
  | [] => ret tt
  | e_doc :: rest => on_change e_doc ;;; deliver rest
  end.

Definition is_raw (t : ValueType) : bool :=
  match t with VT_raw => true | _ => false end.

(** [cpFromAutomerge]; [changes] are the change events the source document
    emits after the listener is registered. *)
Definition cpFromAutomerge (watch : bool) (changes : list value) : M unit :=
  if is_raw type && is_automerge dst then throw (AMTError msg_raw_am_to_am)
  else if watch then deliver changes
  else
    doc <- handle_doc src_docUrl ;;
    match doc with
    | Some d =>
        if negb (truthy d)
        then throw (AMTError ("document " ++ src_docUrl ++ " not found"))
        else onDoc d ;;; wait 500 ;;; process_exit 0
    | None => throw (AMTError ("document " ++ src_docUrl ++ " not found"))
    end.

End CpFromAutomerge.

(** ** Predicates used to state the properties *)

(** [typeof v === "object" && v !== null] *)
Definition is_object (v : value) : bool :=
  typeof_is v "object" && negb (match v with VNull => true | _ => false end).

(** A pre-existing nested-object skeleton for a non-empty path: every key
    but the last is present and leads to an object, and the value reached
    before the last key is an object. *)
Fixpoint is_skeleton (root : value) (path : list string) : bool :=
  match path with
  | [] => false
  | key :: rest =>
      match root with
      | VObj ps =>
          match rest with
          | [] => true
          | _ => match lookup_prop key ps with
                 | Some child => is_skeleton child rest
                 | None => false
                 end
          end
      | _ => false
      end
  end.

(** The own properties of an object or array. *)
Definition own_props (v : value) : option (list (string * value)) :=
  match v with
  | VObj ps | VArr _ ps => Some ps
  | _ => None
  end.

(** The two fields of a tree file are present with the right types. *)
Definition has_file_fields (v : value) : Prop :=
  exists ps contentType,
    own_props v = Some ps
    /\ lookup_prop "contentType" ps = Some (VStr contentType)
    /\ ((exists s, lookup_prop "contents" ps = Some (VStr s))
        \/ (exists bs, lookup_prop "contents" ps = Some (VBytes bs))).

(** No property other than the two fields of a tree file. *)
Definition only_file_fields (v : value) : bool :=
  forallb (fun k => String.eqb k "contentType" || String.eqb k "contents")
          (for_in_keys v).

(** The parse / stringify / parse round trip on one address. *)
Definition roundtrips (s : string) : Prop :=
  parseLocation (stringifyLocation (parseLocation s)) = parseLocation s.

(** Materializing the elements of a sequence under their indices. *)
Fixpoint write_indexed (path : string) (from : N) (xs : list value) : M unit :=
  match xs with
  | [] => ret tt
  | x :: rest =>
      writeAMFS x (child_path path (decimal from)) ;;;
      write_indexed path (N.succ from) rest
  end.

(** The world after one more host call. *)
Definition logged (w : world) (e : event) : world :=
  mkWorld (docs w) (events w ++ [e])%list.

(** The world after the repo took the new state of a document. *)
Definition stored (w : world) (docUrl : string) (doc : value) : world :=
  mkWorld (<[docUrl := doc]> (docs w)) (events w).

Definition is_AMTError (e : exn) : bool :=
  match e with AMTError _ => true | _ => false end.

(** ** Copying from a file and from the pipe

    [JSON.parse] is the host's; the copy functions take it as a parameter.
    What the host answers is an argument too: the result of
    [fsP.readFile(src.path, "utf8")] (at the one-shot read, and at each
    watcher event), the whole text of standard input, and the lines the
    readline interface emits before it closes. *)

Definition msg_fs_file_source : string :=
  "value type " ++ quoted "fs" ++ " is not implemented yet for file source".
Definition msg_fs_pipe_source : string :=
  "value type " ++ quoted "fs" ++ " is not supported on pipe".
Definition msg_raw_and_fs : string :=
  "source can either be read as raw or as an automerge file system".

Definition is_fs (t : ValueType) : bool :=
  match t with VT_fs => true | _ => false end.

(** Events handed one after the other to a listener that is wrapped in
    [catchAMTErrors(..., false)]. *)
Fixpoint deliver_each {A : Type} (listener : A -> M unit) (xs : list A) : M unit :=
  match xs with
  | [] => ret tt
  | x :: rest => catchAMTErrors (listener x) false ;;; deliver_each listener rest
  end.

Section CpFromHost.

Variable JSON_parse : string -> result value.

Section CpFromFile.

Variable src_path : string.
Variable dst : Location.
Variable type : ValueType.

(** [onFile]; [read] is what [fsP.readFile(src.path, "utf8")] gives. *)
Definition onFile (read : result string) : M unit :=
  contents <- lift read ;;
  value <- (if is_raw type then ret (VStr contents) else lift (JSON_parse contents)) ;;
  writeToLocation dst value type ;;;
  if negb (is_pipe dst)
  then emit (EvConsoleError
               ("wrote " ++ stringifyLocation (LocationFile src_path)
                ++ " to " ++ stringifyLocation dst))
  else ret tt.

Definition cpFromFile (watch : bool) (read_now : result string)
  (read_on_event : list (result string)) : M unit :=
  if is_fs type then throw (AMTError msg_fs_file_source)
  else if watch then deliver_each onFile read_on_event
  else onFile read_now ;;; wait 500 ;;; process_exit 0.

End CpFromFile.

Section CpFromPipe.

Variable dst : Location.
Variable watch : bool.
Variable sourceType : ValueType.

Definition onPipeData (contents : string) : M unit :=
  value <- (if is_raw sourceType then ret (VStr contents)
            else lift (JSON_parse contents)) ;;
  writeToLocation dst value sourceType ;;;
  if negb (is_pipe dst)
  then emit (EvConsoleError
               ("wrote " ++ (if watch then "line of stdin" else "stdin")
                ++ " to " ++ stringifyLocation dst))
  else ret tt.

(** [cpFromPipe]: in watch mode every line goes through [onPipeData] and the
    close of the input ends the process; otherwise the whole input text is
    handed to [writeToLocation] as it is. *)
Definition cpFromPipe (stdin_data : string) (stdin_lines : list string) : M unit :=
  if is_fs sourceType then throw (AMTError msg_fs_pipe_source)
  else if watch then
    deliver_each onPipeData stdin_lines ;;; wait 500 ;;; process_exit 0
  else
    writeToLocation dst (VStr stdin_data) sourceType ;;; wait 500 ;;; process_exit 0.

End CpFromPipe.

(** The arguments of the [cp] command. *)
Record cp_args : Type := mkArgs {
  args_src : string;
  args_dst : string;
  args_watch : bool;
  args_raw : bool;
  args_fs : bool
}.

(** What the host delivers during a run. *)
Record host_input : Type := mkHost {
  doc_changes : list value;
  read_now : result string;
  read_on_event : list (result string);
  stdin_data : string;
  stdin_lines : list string
}.

(** The handler of the [cp] command. *)
Definition cp (args : cp_args) (host : host_input) : M unit :=
  let src := parseLocation (args_src args) in
  let dst := parseLocation (args_dst args) in
  if args_raw args && args_fs args then throw (AMTError msg_raw_and_fs)
  else
    let type := if args_raw args then VT_raw
                else if args_fs args then VT_fs else VT_json in
    match src with
    | LocationAutomerge docUrl path =>
        cpFromAutomerge docUrl path dst type (args_watch args) (doc_changes host)
    | LocationFile path =>
        cpFromFile path dst type (args_watch args) (read_now host) (read_on_event host)
    | LocationPipe =>
        cpFromPipe dst (args_watch args) type (stdin_data host) (stdin_lines host)
    end.

End CpFromHost.

(** ** Further predicates used to state the properties *)

Definition no_slash (s : string) : bool := negb (JsString.mem JsString.slash s).

(** The locations that [parseLocation] can produce for a document or a
    file: a document identifier with the scheme prefix, identifier and keys
    free of "/", and a file path that is neither "-" nor prefixed by the
    scheme. *)
Definition well_formed (l : Location) : bool :=
  match l with
  | LocationAutomerge docUrl path =>
      JsString.startsWith docUrl automerge_prefix
      && no_slash docUrl && forallb no_slash path
  | LocationFile path =>
      negb (String.eqb path "-") && negb (JsString.startsWith path automerge_prefix)
  | LocationPipe => false
  end.

(** Two paths part ways at some key after a common beginning. *)
Fixpoint diverge (p q : list string) : bool :=
  match p, q with
  | k :: p', k' :: q' => if String.eqb k k' then diverge p' q' else true
  | _, _ => false
  end.

(** A host call of the tree materializer on a path that extends [root]. *)
Definition under (root : string) (e : event) : bool :=
  match e with
  | EvEnsureDirSync p | EvWriteFileSync p _ => String.prefix root p
  | _ => false
  end.

(** The world after further host calls. *)
Definition appended (w : world) (new : list event) : world :=
  mkWorld (docs w) (events w ++ new)%list.

(** The outcome is not a process exit. *)
Definition not_exited {A : Type} (r : outcome A * world) : Prop :=
  forall code w', r <> (Exited code, w').

(** * Properties *)

(** ** Strings *)

Section StringFacts.

Variable sep : ascii.

Lemma split_nonempty (s : string) : JsString.split sep s <> [].
Proof.
  destruct s as [|c r]; simpl; [discriminate|].
  destruct (Ascii.eqb c sep); [discriminate|].
  destruct (JsString.split sep r); discriminate.
Qed.

Lemma join_cons_cons (x y : string) (rest : list string) :
  JsString.join (JsString.str1 sep) (x :: y :: rest)
  = x ++ String sep (JsString.join (JsString.str1 sep) (y :: rest)).
Proof. reflexivity. Qed.

(** Joining the pieces of a split with the separator gives the text back. *)
Lemma join_split (s : string) :
  JsString.join (JsString.str1 sep) (JsString.split sep s) = s.
Proof.
  induction s as [|c r IH]; [reflexivity|].
  cbn [JsString.split].
  destruct (Ascii.eqb_spec c sep) as [->|Hne].
  - pose proof (split_nonempty r) as Hr.
    destruct (JsString.split sep r) as [|h t] eqn:E; [congruence|].
    rewrite join_cons_cons, IH. reflexivity.
  - pose proof (split_nonempty r) as Hr.
    destruct (JsString.split sep r) as [|h t] eqn:E; [congruence|].
    destruct t as [|h' t'].
    + simpl in *. now rewrite IH.
    + rewrite join_cons_cons in IH. rewrite join_cons_cons.
      rewrite <- IH. reflexivity.
Qed.

(** The first piece is the text before the first separator, and the other
    pieces are the split of what follows it. *)
Lemma split_before_after (s : string) :
  JsString.split sep s
  = JsString.before sep s
    :: match JsString.after sep s with
       | Some r => JsString.split sep r
       | None => []
       end.
Proof.
  induction s as [|c r IH]; [reflexivity|].
  cbn [JsString.split JsString.before JsString.after].
  destruct (Ascii.eqb c sep); [reflexivity|].
  rewrite IH. reflexivity.
Qed.

Lemma before_no_sep (s : string) : JsString.mem sep (JsString.before sep s) = false.
Proof.
  induction s as [|c r IH]; [reflexivity|].
  cbn [JsString.before].
  destruct (Ascii.eqb c sep) eqn:E; [reflexivity|].
  cbn [JsString.mem]. now rewrite E, IH.
Qed.

End StringFacts.

Lemma startsWith_not_dash (s : string) :
  JsString.startsWith s automerge_prefix = true -> String.eqb s "-" = false.
Proof.
  intros H. destruct (String.eqb_spec s "-") as [->|]; [discriminate H|reflexivity].
Qed.

(** ** Locations *)

Lemma stringify_parse (s : string) :
  s <> "-" -> stringifyLocation (parseLocation s) = s.
Proof.
  intros Hs. unfold parseLocation.
  destruct (String.eqb_spec s "-") as [->|_]; [congruence|].
  destruct (JsString.startsWith s automerge_prefix); [|reflexivity].
  pose proof (split_nonempty JsString.slash s) as Hne.
  pose proof (join_split JsString.slash s) as Hj.
  destruct (JsString.split JsString.slash s) as [|docUrl path]; [congruence|].
  exact Hj.
Qed.

(** C2, as the code has it: for every address other than the stream address
    "-", stringifying the parsed location gives the address back, so parsing
    it again gives an equal location; this covers every document address. *)
Theorem parse_stringify_roundtrip (s : string) :
  s <> "-" ->
  stringifyLocation (parseLocation s) = s /\ roundtrips s.
Proof.
  intros Hs. pose proof (stringify_parse s Hs) as E.
  split; [exact E|]. unfold roundtrips. now rewrite E.
Qed.

Lemma parse_stringify_roundtrip_witness :
  stringifyLocation (parseLocation "automerge:abc/x/y") = "automerge:abc/x/y"
  /\ roundtrips "automerge:abc/x/y".
Proof. apply parse_stringify_roundtrip. discriminate. Defined.

(** C2 fails as stated at the stream address: "-" parses to the stream
    location, which is displayed as "pipe", and "pipe" parses to a file path. *)
Lemma roundtrip_stream_counterexample :
  parseLocation "-" = LocationPipe
  /\ stringifyLocation (parseLocation "-") = "pipe"
  /\ parseLocation (stringifyLocation (parseLocation "-")) = LocationFile "pipe"
  /\ ~ roundtrips "-".
Proof.
  repeat split; try reflexivity. unfold roundtrips. cbv. discriminate.
Qed.

(** C7: [parseLocation] is defined on every string; "-" is the stream; a
    text with the document prefix is a document whose identifier is the text
    before the first "/" and whose path is the "/"-split of what follows that
    "/" (empty when there is none); any other text is a file path. *)
Theorem parseLocation_grammar :
  parseLocation "-" = LocationPipe
  /\ (forall s, JsString.startsWith s automerge_prefix = true ->
        parseLocation s
        = LocationAutomerge
            (JsString.before JsString.slash s)
            match JsString.after JsString.slash s with
            | Some remainder => JsString.split JsString.slash remainder
            | None => []
            end)
  /\ (forall s, s <> "-" -> JsString.startsWith s automerge_prefix = false ->
        parseLocation s = LocationFile s)
  /\ parseLocation "automerge:abc" = LocationAutomerge "automerge:abc" []
  /\ parseLocation "automerge:abc/x/y" = LocationAutomerge "automerge:abc" ["x"; "y"].
Proof.
  split; [reflexivity|]. split; [|split; [|split; reflexivity]].
  - intros s Hp. unfold parseLocation.
    rewrite (startsWith_not_dash s Hp), Hp, split_before_after. reflexivity.
  - intros s Hs Hp. unfold parseLocation. rewrite Hp.
    destruct (String.eqb_spec s "-"); [contradiction|reflexivity].
Qed.

Lemma parseLocation_grammar_witness :
  parseLocation "automerge:abc/x/" = LocationAutomerge "automerge:abc" ["x"; EmptyString]
  /\ parseLocation "./notes.json" = LocationFile "./notes.json".
Proof.
  destruct parseLocation_grammar as (_ & Hdoc & Hfile & _).
  split.
  - apply (Hdoc "automerge:abc/x/"). reflexivity.
  - apply (Hfile "./notes.json"); [discriminate | reflexivity].
Defined.

(** ** Property lists *)

Section PropertyLists.

Implicit Types (k : string) (v : value) (ps : list (string * value)).

Lemma lookup_replace_same k v ps :
  has_key k ps = true -> lookup_prop k (replace_prop k v ps) = Some v.
Proof.
  unfold has_key. induction ps as [|[k' v'] rest IH]; simpl; [discriminate|].
  destruct (String.eqb k' k) eqn:E; simpl; rewrite E; [reflexivity|exact IH].
Qed.

Lemma lookup_replace_other k k0 v ps :
  k0 <> k -> lookup_prop k0 (replace_prop k v ps) = lookup_prop k0 ps.
Proof.
  intros Hne. induction ps as [|[k' v'] rest IH]; simpl; [reflexivity|].
  destruct (String.eqb_spec k' k) as [->|Hk]; simpl.
  - destruct (String.eqb_spec k k0); [congruence|reflexivity].
  - destruct (String.eqb k' k0); [reflexivity|exact IH].
Qed.

Lemma lookup_insert_index_same i k v ps :
  has_key k ps = false -> lookup_prop k (insert_index i k v ps) = Some v.
Proof.
  unfold has_key. induction ps as [|[k' v'] rest IH]; simpl; intros Hk.
  - now rewrite String.eqb_refl.
  - destruct (String.eqb k' k) eqn:E; [discriminate|].
    destruct (parse_index k') as [j|]; [destruct (N.ltb j i)|]; simpl;
      rewrite ?E, ?String.eqb_refl; auto.
Qed.

Lemma lookup_insert_index_other i k k0 v ps :
  k0 <> k -> lookup_prop k0 (insert_index i k v ps) = lookup_prop k0 ps.
Proof.
  intros Hne. induction ps as [|[k' v'] rest IH]; simpl.
  - destruct (String.eqb_spec k k0); [congruence|reflexivity].
  - destruct (parse_index k') as [j|]; [destruct (N.ltb j i)|]; simpl.
    + destruct (String.eqb k' k0); [reflexivity|exact IH].
    + destruct (String.eqb_spec k k0); [congruence|reflexivity].
    + destruct (String.eqb_spec k k0); [congruence|reflexivity].
Qed.

Lemma lookup_app_new k v ps :
  has_key k ps = false -> lookup_prop k (ps ++ [(k, v)])%list = Some v.
Proof.
  unfold has_key. induction ps as [|[k' v'] rest IH]; simpl; intros Hk.
  - now rewrite String.eqb_refl.
  - destruct (String.eqb k' k); [discriminate|auto].
Qed.

Lemma lookup_app_other k k0 v ps :
  k0 <> k -> lookup_prop k0 (ps ++ [(k, v)])%list = lookup_prop k0 ps.
Proof.
  intros Hne. induction ps as [|[k' v'] rest IH]; simpl.
  - destruct (String.eqb_spec k k0); [congruence|reflexivity].
  - destruct (String.eqb k' k0); [reflexivity|exact IH].
Qed.

(** Reading a property just written gives the value written. *)
Lemma lookup_assign_same k v ps : lookup_prop k (assign_prop k v ps) = Some v.
Proof.
  unfold assign_prop. destruct (has_key k ps) eqn:Hk.
  - now apply lookup_replace_same.
  - destruct (parse_index k).
    + now apply lookup_insert_index_same.
    + now apply lookup_app_new.
Qed.

(** Writing a property leaves the others as they were. *)
Lemma lookup_assign_other k k0 v ps :
  k0 <> k -> lookup_prop k0 (assign_prop k v ps) = lookup_prop k0 ps.
Proof.
  intros Hne. unfold assign_prop. destruct (has_key k ps).
  - now apply lookup_replace_other.
  - destruct (parse_index k).
    + now apply lookup_insert_index_other.
    + now apply lookup_app_other.
Qed.

End PropertyLists.

(** ** Path access *)

Lemma slice_init_cons (k k2 : string) (rest : list string) :
  slice_init (k :: k2 :: rest) = k :: slice_init (k2 :: rest).
Proof. reflexivity. Qed.

Lemma last_key_cons (k k2 : string) (rest : list string) :
  last_key (k :: k2 :: rest) = last_key (k2 :: rest).
Proof. reflexivity. Qed.

Lemma setAtPath_cons (doc : value) (k k2 : string) (rest : list string) (v : value) :
  setAtPath doc (k :: k2 :: rest) v
  = rbind (get_prop doc k) (fun doclet =>
    rbind (setAtPath doclet (k2 :: rest) v) (fun doclet' =>
    Ok (put_back doc k doclet'))).
Proof. reflexivity. Qed.

Lemma get_prop_obj_assign (k : string) (v : value) (ps : list (string * value)) :
  get_prop (VObj (assign_prop k v ps)) k = Ok v.
Proof. simpl. now rewrite lookup_assign_same. Qed.

(** X26: for a non-empty path into a pre-existing nested-object skeleton
    whose last key is not "__proto__", [setAtPath] succeeds and [getAtPath]
    along the same path then returns the value that was set. *)
Theorem getAtPath_setAtPath (path : list string) :
  forall (root v : value),
    is_skeleton root path = true ->
    last_key path <> "__proto__" ->
    exists root', setAtPath root path v = Ok root' /\ getAtPath root' path = Ok v.
Proof.
  induction path as [|k rest IH]; intros root v Hsk Hlast; [discriminate Hsk|].
  destruct root as [| | | | | |ps|]; try discriminate Hsk.
  destruct rest as [|k2 rest].
  - exists (VObj (assign_prop k v ps)). split; [reflexivity|].
    cbn [getAtPath]. now rewrite get_prop_obj_assign.
  - cbn [is_skeleton] in Hsk. rewrite last_key_cons in Hlast.
    destruct (lookup_prop k ps) as [child|] eqn:Hk; [|discriminate Hsk].
    destruct (IH child v Hsk Hlast) as (child' & Hset & Hget).
    exists (VObj (replace_prop k child' ps)). split.
    + rewrite setAtPath_cons. cbn [get_prop]. rewrite Hk. cbn [rbind].
      now rewrite Hset.
    + cbn [getAtPath get_prop].
      rewrite lookup_replace_same by (unfold has_key; now rewrite Hk).
      exact Hget.
Qed.

Lemma getAtPath_setAtPath_witness :
  exists root',
    setAtPath (VObj [("a", VObj [("b", VObj [("c", VNum 1)])]); ("z", VNull)])
              ["a"; "b"; "c"] (VStr "new") = Ok root'
    /\ getAtPath root' ["a"; "b"; "c"] = Ok (VStr "new").
Proof. apply getAtPath_setAtPath; [reflexivity | discriminate]. Defined.

(** ** Writing to a document root *)

Lemma get_prop_object_ok (val : value) (k : string) :
  is_object val = true -> exists x, get_prop val k = Ok x.
Proof.
  destruct val; try discriminate; intros _; simpl.
  - destruct (String.eqb k "length"); [eauto|].
    destruct (parse_index k); [|eauto]. destruct (nth_error _ _); eauto.
  - destruct (lookup_prop k props); eauto.
  - destruct (lookup_prop k props); [eauto|].
    destruct (String.eqb k "length"); eauto.
Qed.

(** The assignment loop on an object root: it cannot fail, every key it
    visits ends up holding the value read from [val], and every other key
    keeps what it had. *)
Lemma assign_keys_object (val : value) (keys : list string) :
  is_object val = true ->
  forall root,
  exists root',
    assign_keys val keys (VObj root) = Ok (VObj root')
    /\ (forall k, In k keys -> get_prop (VObj root') k = get_prop val k)
    /\ (forall k, ~ In k keys -> lookup_prop k root' = lookup_prop k root).
Proof.
  intros Hobj. induction keys as [|key rest IH]; intros root.
  - exists root. split; [reflexivity|]. split; [intros k []|reflexivity].
  - destruct (get_prop_object_ok val key Hobj) as [x Hx].
    destruct (IH (assign_prop key x root)) as (root' & Hrun & Hin & Hout).
    exists root'. split; [|split].
    + cbn [assign_keys]. rewrite Hx. cbn [rbind set_prop]. exact Hrun.
    + intros k [<-|Hk].
      * destruct (in_dec string_dec key rest) as [Hr|Hr]; [now apply Hin|].
        cbn [get_prop]. rewrite (Hout key Hr), lookup_assign_same. now rewrite Hx.
      * now apply Hin.
    + intros k Hk. rewrite Hout by (intros ?; apply Hk; now right).
      apply lookup_assign_other. intros ->. apply Hk. now left.
Qed.

(** After the assignment loop every visited key is an own property of the
    root holding the value read from [val]. *)
Lemma assign_keys_lookup (val : value) (keys : list string) :
  is_object val = true ->
  forall root,
  exists root',
    assign_keys val keys (VObj root) = Ok (VObj root')
    /\ (forall k, In k keys ->
          exists x, get_prop val k = Ok x /\ lookup_prop k root' = Some x).
Proof.
  intros Hobj. induction keys as [|key rest IH]; intros root.
  - exists root. split; [reflexivity|intros k []].
  - destruct (get_prop_object_ok val key Hobj) as [x Hx].
    destruct (assign_keys_object val rest Hobj (assign_prop key x root))
      as (root' & Hrun & _ & Hout).
    destruct (IH (assign_prop key x root)) as (root'' & Hrun' & Hin).
    assert (root'' = root') as -> by congruence.
    exists root'. split.
    + cbn [assign_keys]. rewrite Hx. cbn [rbind set_prop]. exact Hrun.
    + intros k [<-|Hk]; [|now apply Hin].
      destruct (in_dec string_dec key rest) as [Hr|Hr]; [now apply Hin|].
      exists x. split; [exact Hx|]. now rewrite (Hout key Hr), lookup_assign_same.
Qed.

Lemma lookup_in_keys {A : Type} (k : string) (x : A) (ps : list (string * A)) :
  lookup_prop k ps = Some x -> In k (List.map fst ps).
Proof.
  induction ps as [|[k' v'] rest IH]; [discriminate|]. simpl.
  destruct (String.eqb_spec k' k) as [->|_]; [now left|]. intros H. right. auto.
Qed.

Lemma lookup_none_not_in {A : Type} (k : string) (ps : list (string * A)) :
  lookup_prop k ps = None -> ~ In k (List.map fst ps).
Proof.
  induction ps as [|[k' v'] rest IH]; [intros _ []|]. simpl.
  destruct (String.eqb_spec k' k) as [->|Hne]; [discriminate|].
  intros H [E|Hin]; [contradiction|]. now apply IH.
Qed.

Lemma get_prop_own (v : value) (ps : list (string * value)) (k : string) (x : value) :
  own_props v = Some ps -> lookup_prop k ps = Some x -> get_prop v k = Ok x.
Proof.
  destruct v; try discriminate; intros [= ->] Hk; simpl; now rewrite Hk.
Qed.

Lemma for_in_keys_own (val : value) (vps : list (string * value)) :
  own_props val = Some vps -> for_in_keys val = List.map fst vps.
Proof. destruct val; try discriminate; now intros [= ->]. Qed.

Lemma change_callback_root_not_object (val doc : value) :
  is_object val = false ->
  change_callback [] val doc = Throw (AMTError msg_root_object).
Proof.
  intros H. unfold change_callback. cbn [List.length Nat.eqb].
  unfold is_object in H. now rewrite H.
Qed.

Lemma change_callback_root_object (val doc : value) :
  is_object val = true ->
  change_callback [] val doc = assign_keys val (for_in_keys val) doc.
Proof.
  intros H. unfold change_callback. cbn [List.length Nat.eqb].
  unfold is_object in H. now rewrite H.
Qed.

(** C3: a structured write to the root of an existing document.  A value
    that is not a non-null object raises the error and leaves the world as it
    was; otherwise the keys of the value are assigned one by one into the
    root: every property of the value is afterwards a property of the root
    with the same value, and the keys of the root that the value does not
    have keep their values. *)
Theorem write_document_root_merges
  (docUrl : string) (val : value) (root : list (string * value)) (w : world) :
  docs w !! docUrl = Some (VObj root) ->
  (is_object val = false ->
   writeToLocation (LocationAutomerge docUrl []) val VT_json w
   = (Thrown (AMTError msg_root_object), w))
  /\ (is_object val = true ->
      exists root',
        writeToLocation (LocationAutomerge docUrl []) val VT_json w
        = (Returned tt, stored w docUrl (VObj root'))
        /\ assign_keys val (for_in_keys val) (VObj root) = Ok (VObj root')
        /\ (forall props, own_props val = Some props ->
              (forall k x, lookup_prop k props = Some x -> lookup_prop k root' = Some x)
              /\ (forall k, lookup_prop k props = None ->
                            lookup_prop k root' = lookup_prop k root))
        /\ (forall k, In k (for_in_keys val) ->
              get_prop (VObj root') k = get_prop val k)
        /\ (forall k, ~ In k (for_in_keys val) ->
              lookup_prop k root' = lookup_prop k root)).
Proof.
  intros Hdoc. split; intros Hobj.
  - cbn [writeToLocation]. unfold handle_change. rewrite Hdoc.
    now rewrite change_callback_root_not_object.
  - destruct (assign_keys_object val (for_in_keys val) Hobj root)
      as (root' & Hrun & Hin & Hout).
    destruct (assign_keys_lookup val (for_in_keys val) Hobj root)
      as (root2 & Hrun2 & Hlook).
    assert (root2 = root') as -> by congruence.
    exists root'. split; [|split; [exact Hrun|split; [|split; assumption]]].
    + cbn [writeToLocation]. unfold handle_change. rewrite Hdoc.
      rewrite change_callback_root_object by assumption.
      now rewrite Hrun.
    + intros props Hprops. rewrite (for_in_keys_own val props Hprops) in *. split.
      * intros k x Hk.
        destruct (Hlook k (lookup_in_keys k x props Hk)) as (x' & Hx' & Hl).
        rewrite (get_prop_own val props k x Hprops Hk) in Hx'. congruence.
      * intros k Hk. apply Hout. now apply lookup_none_not_in.
Qed.

Lemma write_document_root_merges_witness :
  let w := mkWorld {[ "automerge:d" := VObj [("keep", VBool true); ("x", VNum 0)] ]} [] in
  writeToLocation (LocationAutomerge "automerge:d" []) (VNum 7) VT_json w
  = (Thrown (AMTError msg_root_object), w)
  /\ writeToLocation (LocationAutomerge "automerge:d" [])
                     (VObj [("x", VNum 1); ("y", VNum 2)]) VT_json w
     = (Returned tt,
        stored w "automerge:d"
               (VObj [("keep", VBool true); ("x", VNum 1); ("y", VNum 2)]))
  /\ exists root',
       writeToLocation (LocationAutomerge "automerge:d" [])
                       (VObj [("x", VNum 1); ("y", VNum 2)]) VT_json w
       = (Returned tt, stored w "automerge:d" (VObj root'))
       /\ lookup_prop "x" root' = Some (VNum 1)
       /\ lookup_prop "y" root' = Some (VNum 2)
       /\ lookup_prop "keep" root' = Some (VBool true).
Proof.
  intros w.
  destruct (write_document_root_merges "automerge:d"
              (VObj [("x", VNum 1); ("y", VNum 2)])
              [("keep", VBool true); ("x", VNum 0)] w eq_refl) as [_ H].
  destruct (H eq_refl) as (root' & Hw & Hfold & Hprops & _ & _).
  destruct (Hprops [("x", VNum 1); ("y", VNum 2)] eq_refl) as [Hset Hkeep].
  split; [|split].
  - apply (write_document_root_merges "automerge:d" (VNum 7)
             [("keep", VBool true); ("x", VNum 0)] w); reflexivity.
  - rewrite Hw. cbv in Hfold. now injection Hfold as <-.
  - exists root'. split; [exact Hw|]. split; [|split].
    + now apply Hset.
    + now apply Hset.
    + now rewrite (Hkeep "keep" eq_refl).
Defined.

(** ** The AMFS tree codec *)

(** Induction on values that reaches the property values of objects and
    arrays. *)
Lemma value_nested_ind (P : value -> Prop) :
  P VUndefined -> P VNull -> (forall b, P (VBool b)) -> (forall n, P (VNum n)) ->
  (forall s, P (VStr s)) -> (forall bs, P (VBytes bs)) ->
  (forall ps, Forall (fun p => P (snd p)) ps -> P (VObj ps)) ->
  (forall len ps, Forall (fun p => P (snd p)) ps -> P (VArr len ps)) ->
  forall v, P v.
Proof.
  intros Hu Hn Hb Hz Hs Hy Ho Ha.
  fix IH 1. intros [| | b | n | s | bs | ps | len ps].
  - exact Hu.
  - exact Hn.
  - apply Hb.
  - apply Hz.
  - apply Hs.
  - apply Hy.
  - apply Ho. induction ps as [|p ps IHps]; constructor; [apply IH|exact IHps].
  - apply Ha. induction ps as [|p ps IHps]; constructor; [apply IH|exact IHps].
Qed.

Lemma isAMFSFile_is_object (v : value) : isAMFSFile v = true -> is_object v = true.
Proof.
  unfold isAMFSFile, is_object.
  destruct (truthy v && typeof_is v "object") eqn:E; [|discriminate].
  apply andb_prop in E as [Ht ->]. intros _. now destruct v.
Qed.

Lemma is_object_own_or_bytes (v : value) :
  is_object v = true ->
  (exists ps, own_props v = Some ps) \/ (exists bs, v = VBytes bs).
Proof. destruct v; try discriminate; simpl; eauto. Qed.

Lemma has_key_lookup {A : Type} (k : string) (ps : list (string * A)) :
  has_key k ps = true <-> exists x, lookup_prop k ps = Some x.
Proof.
  unfold has_key. destruct (lookup_prop k ps); split; eauto; try discriminate.
  intros [x Hx]. discriminate Hx.
Qed.

(** What [isAMFSFile] accepts: an object or array whose own properties
    include a string [contentType] and a string or byte [contents]. *)
Lemma isAMFSFile_iff (v : value) : isAMFSFile v = true <-> has_file_fields v.
Proof.
  split.
  - intros H. pose proof (isAMFSFile_is_object v H) as Hobj.
    destruct (is_object_own_or_bytes v Hobj) as [[ps Hps]|[bs ->]];
      [|discriminate H].
    unfold isAMFSFile in H.
    destruct (truthy v && typeof_is v "object" && has_property "contentType" v
              && has_property "contents" v) eqn:E; [|discriminate H].
    assert (Hct : has_key "contentType" ps = true /\ has_key "contents" ps = true).
    { destruct v; try discriminate Hps; injection Hps as ->;
        cbn [has_property truthy typeof_is typeof] in E.
      - apply andb_prop in E as [E ->]. apply andb_prop in E as [_ ->]. now split.
      - apply andb_prop in E as [E E2]. apply andb_prop in E as [_ E1].
        rewrite orb_false_r in E1, E2. now split. }
    destruct Hct as [H1 H2].
    apply has_key_lookup in H1 as [ct Hct], H2 as [c Hc].
    rewrite (get_prop_own v ps _ ct Hps Hct), (get_prop_own v ps _ c Hps Hc) in H.
    apply andb_prop in H as [Ha Hb].
    destruct ct; try discriminate Ha.
    exists ps, s. split; [exact Hps|]. split; [exact Hct|].
    destruct c; try discriminate Hb; eauto.
  - intros (ps & ct & Hps & Hct & Hc).
    assert (exists c, lookup_prop "contents" ps = Some c
                      /\ (typeof_is c "string" || instanceof_Uint8Array c) = true)
      as (c & Hc' & Hty).
    { destruct Hc as [[s Hs]|[bs Hbs]]; eexists; split; eauto. }
    unfold isAMFSFile.
    rewrite (get_prop_own v ps _ _ Hps Hct), (get_prop_own v ps _ _ Hps Hc'), Hty.
    destruct v; try discriminate Hps; injection Hps as ->;
      cbn [has_property truthy typeof_is typeof];
      unfold has_key; rewrite Hct, Hc'; reflexivity.
Qed.

Lemma isAMFS_number (n : Z) : isAMFS (VNum n) = false.
Proof. destruct n; reflexivity. Qed.

Lemma forallb_indexed_numbers (bs : list Byte.byte) (from : N) :
  forallb isAMFS (List.map snd (indexed from (List.map byte_value bs)))
  = forallb (fun _ => false) bs.
Proof.
  revert from. induction bs as [|b bs IH]; intros from; [reflexivity|].
  cbn [List.map indexed forallb snd]. unfold byte_value at 1.
  now rewrite isAMFS_number.
Qed.

Lemma forallb_map_snd (ps : list (string * value)) :
  forallb isAMFS (List.map snd ps) = forallb (fun p => isAMFS (snd p)) ps.
Proof. induction ps as [|p ps IH]; [reflexivity|]. cbn. now rewrite IH. Qed.

(** The source line of [isAMFS]: a file or a directory. *)
Lemma isAMFS_unfold (v : value) : isAMFS v = isAMFSFile v || isAMFSDirectory v.
Proof.
  unfold isAMFSDirectory, Object_values.
  destruct v; cbn [isAMFS Object_entries]; try reflexivity.
  - unfold typeof_is. cbn [typeof String.eqb Ascii.eqb Bool.eqb].
    now rewrite !andb_false_r.
  - now rewrite forallb_indexed_numbers.
  - now rewrite forallb_map_snd.
  - now rewrite forallb_map_snd.
Qed.

Lemma isAMFSDirectory_iff (v : value) :
  isAMFSDirectory v = true
  <-> is_object v = true /\ Forall (fun x => isAMFS x = true) (Object_values v).
Proof.
  unfold isAMFSDirectory.
  rewrite !andb_true_iff, forallb_forall, Stdlib.Lists.List.Forall_forall.
  assert (truthy v = true /\ typeof_is v "object" = true <-> is_object v = true)
    as <-.
  { unfold is_object. destruct v; cbn; intuition congruence. }
  reflexivity.
Qed.

(** C4, as the code has it: a value is a tree file exactly when it is an
    object with a string [contentType] property and a string or byte
    [contents] property, whatever other properties it has; it is a tree
    directory exactly when it is a non-null object all of whose own property
    values are file trees, and the empty object is a directory. *)
Theorem tree_classification :
  (forall v, isAMFSFile v = true <-> has_file_fields v)
  /\ (forall v, isAMFSDirectory v = true
                <-> is_object v = true
                    /\ Forall (fun x => isAMFS x = true) (Object_values v))
  /\ (forall v, isAMFS v = isAMFSFile v || isAMFSDirectory v)
  /\ isAMFSDirectory (VObj []) = true
  /\ isAMFSFile (VObj []) = false.
Proof.
  split; [exact isAMFSFile_iff|]. split; [exact isAMFSDirectory_iff|].
  split; [exact isAMFS_unfold|]. split; reflexivity.
Qed.

Lemma tree_classification_witness :
  isAMFSFile (VObj [("contentType", VStr "text/plain"); ("contents", VStr "hi")]) = true
  /\ isAMFSDirectory
       (VObj [("a", VObj [("contentType", VStr "x"); ("contents", VStr "1")]);
              ("b", VObj [("contentType", VStr "y"); ("contents", VStr "2")])]) = true.
Proof.
  destruct tree_classification as (Hfile & Hdir & _).
  split.
  - apply Hfile. exists [("contentType", VStr "text/plain"); ("contents", VStr "hi")].
    exists "text/plain". repeat split; eauto.
  - apply Hdir. split; [reflexivity|]. repeat constructor.
Defined.

(** C4 fails as stated: an object with the two fields and a third one is
    still classified as a tree file. *)
Lemma tree_file_extra_field_counterexample :
  let v := VObj [("contentType", VStr "text/plain"); ("contents", VStr "hi");
                 ("mode", VNum 420)] in
  isAMFSFile v = true
  /\ only_file_fields v = false
  /\ ~ (forall x, isAMFSFile x = true
                  <-> has_file_fields x /\ only_file_fields x = true).
Proof.
  intros v. split; [reflexivity|]. split; [reflexivity|].
  intros H. destruct (proj1 (H v) eq_refl) as [_ Hno]. discriminate Hno.
Qed.

(** ** The value-type policy *)

(** C5: in Tree mode every destination that is not a file path is refused
    with the error, whatever the value, and the world is left as it was: no
    host call is made and no document changes.  A one-shot copy from a
    document whose path leads to the value ends with the same error. *)
Theorem tree_mode_needs_file (dst : Location) (val : value) (w : world) :
  is_file dst = false ->
  writeToLocation dst val VT_fs w = (Thrown (AMTError msg_fs_only_file), w)
  /\ (forall src_docUrl src_path doc changes,
         docs w !! src_docUrl = Some doc -> truthy doc = true ->
         getAtPath doc src_path = Ok val ->
         cpFromAutomerge src_docUrl src_path dst VT_fs false changes w
         = (Thrown (AMTError msg_fs_only_file), w)).
Proof.
  intros Hdst.
  assert (Hw : writeToLocation dst val VT_fs w = (Thrown (AMTError msg_fs_only_file), w))
    by (destruct dst; [reflexivity|discriminate|reflexivity]).
  split; [exact Hw|].
  intros src_docUrl src_path doc changes Hdoc Htruthy Hget.
  unfold cpFromAutomerge, handle_doc, onDoc, bind. cbn [is_raw andb].
  rewrite Hdoc, Htruthy, Hget. cbn [negb lift ret]. now rewrite Hw.
Qed.

Lemma tree_mode_needs_file_witness :
  writeToLocation LocationPipe (VObj []) VT_fs (mkWorld ∅ [])
  = (Thrown (AMTError msg_fs_only_file), mkWorld ∅ [])
  /\ cpFromAutomerge "automerge:s" ["dir"] (LocationAutomerge "automerge:d" ["k"])
                     VT_fs false []
                     (mkWorld {[ "automerge:s" := VObj [("dir", VObj [])] ]} [])
     = (Thrown (AMTError msg_fs_only_file),
        mkWorld {[ "automerge:s" := VObj [("dir", VObj [])] ]} []).
Proof.
  split.
  - apply (tree_mode_needs_file LocationPipe (VObj []) (mkWorld ∅ [])). reflexivity.
  - apply (proj2 (tree_mode_needs_file (LocationAutomerge "automerge:d" ["k"]) (VObj [])
                    (mkWorld {[ "automerge:s" := VObj [("dir", VObj [])] ]} [])
                    eq_refl)
             "automerge:s" ["dir"] (VObj [("dir", VObj [])])); reflexivity.
Defined.

(** C6: a raw copy from a document to a document raises the error at once,
    for all paths, in one-shot and in watch mode, and changes nothing. *)
Theorem raw_document_to_document_rejected
  (src_docUrl : string) (src_path : list string)
  (dst_docUrl : string) (dst_path : list string)
  (watch : bool) (changes : list value) (w : world) :
  cpFromAutomerge src_docUrl src_path (LocationAutomerge dst_docUrl dst_path)
                  VT_raw watch changes w
  = (Thrown (AMTError msg_raw_am_to_am), w).
Proof. reflexivity. Qed.

(** ** The error channel in watch mode *)

Section Watch.

Variables (src_docUrl : string) (src_path : list string).
Variables (dst : Location) (type : ValueType).

Local Abbreviation handler := (onDoc src_docUrl src_path dst type).
Local Abbreviation watcher := (cpFromAutomerge src_docUrl src_path dst type true).

Lemma catchAMTErrors_caught (f : M unit) (message : string) (w w' : world) :
  f w = (Thrown (AMTError message), w') ->
  catchAMTErrors f false w
  = (Returned tt, logged w' (EvConsoleError ("error: " ++ message))).
Proof. intros H. unfold catchAMTErrors. now rewrite H. Qed.

Lemma catchAMTErrors_rethrown (f : M unit) (fatal : bool) (e : exn) (w w' : world) :
  f w = (Thrown e, w') -> is_AMTError e = false ->
  catchAMTErrors f fatal w = (Thrown e, w').
Proof.
  intros H He. unfold catchAMTErrors. rewrite H. now destruct e.
Qed.

Lemma catchAMTErrors_nonfatal_no_AMTError (f : M unit) (w w' : world) (message : string) :
  catchAMTErrors f false w <> (Thrown (AMTError message), w').
Proof.
  unfold catchAMTErrors. destruct (f w) as [[a|e|c] w1]; try discriminate.
  destruct e; discriminate.
Qed.

Lemma deliver_cons (e_doc : value) (rest : list value) (w : world) :
  deliver src_docUrl src_path dst type (e_doc :: rest) w
  = match catchAMTErrors (handler e_doc) false (stored w src_docUrl e_doc) with
    | (Returned _, w') => deliver src_docUrl src_path dst type rest w'
    | (Thrown e, w') => (Thrown e, w')
    | (Exited c, w') => (Exited c, w')
    end.
Proof. reflexivity. Qed.

Lemma deliver_no_AMTError (changes : list value) :
  forall (w w' : world) (message : string),
    deliver src_docUrl src_path dst type changes w <> (Thrown (AMTError message), w').
Proof.
  induction changes as [|e_doc rest IH]; intros w w' message; [discriminate|].
  rewrite deliver_cons.
  pose proof (catchAMTErrors_nonfatal_no_AMTError
                (handler e_doc) (stored w src_docUrl e_doc)) as Hc.
  destruct (catchAMTErrors (handler e_doc) false (stored w src_docUrl e_doc))
    as [[a|e|c] w1]; [apply IH| |discriminate].
  intros [= -> ->]. now apply (Hc w' message).
Qed.

Hypothesis allowed : is_raw type && is_automerge dst = false.

Lemma watcher_is_deliver (changes : list value) :
  watcher changes = deliver src_docUrl src_path dst type changes.
Proof. unfold cpFromAutomerge. now rewrite allowed. Qed.

(** C9: in watch mode an [AMTError] raised while one change event is
    processed is logged on the error stream and the watcher goes on with the
    events that follow; any other exception leaves the listener and ends the
    run with the later events unprocessed; and no [AMTError] ever leaves the
    watcher. *)
Theorem watch_survives_AMTError (e_doc : value) (rest : list value) (w : world) :
  (forall message w',
      handler e_doc (stored w src_docUrl e_doc) = (Thrown (AMTError message), w') ->
      watcher (e_doc :: rest) w
      = watcher rest (logged w' (EvConsoleError ("error: " ++ message))))
  /\ (forall e w',
         handler e_doc (stored w src_docUrl e_doc) = (Thrown e, w') ->
         is_AMTError e = false ->
         watcher (e_doc :: rest) w = (Thrown e, w'))
  /\ (forall changes w0 w' message,
         watcher changes w0 <> (Thrown (AMTError message), w')).
Proof.
  split; [|split].
  - intros message w' H. rewrite !watcher_is_deliver, deliver_cons.
    now rewrite (catchAMTErrors_caught _ _ _ _ H).
  - intros e w' H He. rewrite watcher_is_deliver, deliver_cons.
    now rewrite (catchAMTErrors_rethrown _ _ _ _ _ H He).
  - intros changes w0 w' message. rewrite watcher_is_deliver.
    apply deliver_no_AMTError.
Qed.

End Watch.

Lemma watch_survives_AMTError_witness :
  let file := VObj [("contentType", VStr "text/plain"); ("contents", VStr "hi")] in
  let bad := VObj [("k", VNum 1)] in
  let good := VObj [("k", file)] in
  cpFromAutomerge "automerge:s" ["k"] (LocationFile "out") VT_fs true
                  [bad; good] (mkWorld ∅ [])
  = (Returned tt,
     mkWorld {[ "automerge:s" := good ]}
             [EvConsoleError ("error: " ++ msg_not_amfs);
              EvWriteFileSync "out" (VStr "hi");
              EvConsoleError "wrote automerge:s/k to out"])
  /\ cpFromAutomerge "automerge:s" ["k"] (LocationFile "out") VT_fs true
                     [VNull; good] (mkWorld ∅ [])
     = (Thrown TypeError, mkWorld {[ "automerge:s" := VNull ]} []).
Proof.
  intros file bad good. split.
  - rewrite (proj1 (watch_survives_AMTError "automerge:s" ["k"] (LocationFile "out")
                      VT_fs eq_refl bad [good] (mkWorld ∅ []))
               msg_not_amfs (mkWorld {[ "automerge:s" := bad ]} []) eq_refl).
    reflexivity.
  - apply (proj1 (proj2 (watch_survives_AMTError "automerge:s" ["k"]
                           (LocationFile "out") VT_fs eq_refl VNull [good]
                           (mkWorld ∅ [])))); reflexivity.
Defined.

(** ** Materializing a tree *)

Lemma writeAMFS_eq (node : value) (path : string) :
  writeAMFS node path
  = if isAMFSFile node then
      match get_prop node "contents" with
      | Ok contents => emit (EvWriteFileSync path contents)
      | Throw e => throw e
      end
    else
      bind (emit (EvEnsureDirSync path)) (fun _ =>
      match node with
      | VObj ps | VArr _ ps =>
          forEach (fun name child => writeAMFS child (child_path path name)) ps
      | VBytes bs =>
          forEach (fun name _ => emit (EvEnsureDirSync (child_path path name)))
                  (Object_entries node)
      | VBool _ | VNum _ | VStr EmptyString => ret tt
      | VStr _ => throw Unmodelled
      | VUndefined | VNull => throw TypeError
      end).
Proof. destruct node; reflexivity. Qed.

(** A loop over entries whose body always returns and keeps the documents
    does so as a whole. *)
Lemma forEach_returns (f : string -> value -> M unit) (ps : list (string * value)) :
  Forall (fun p => forall w, exists w',
              f (fst p) (snd p) w = (Returned tt, w') /\ docs w' = docs w) ps ->
  forall w, exists w', forEach f ps w = (Returned tt, w') /\ docs w' = docs w.
Proof.
  induction 1 as [|[name node] rest Hhd _ IH]; intros w.
  - exists w. split; reflexivity.
  - destruct (Hhd w) as (w1 & Hf & Hd1). destruct (IH w1) as (w2 & Hr & Hd2).
    exists w2. cbn [forEach]. unfold bind. cbn [fst snd] in Hf. rewrite Hf.
    split; [exact Hr|congruence].
Qed.

Lemma forEach_returns_from (f : string -> value -> M unit)
  (ps : list (string * value)) (w w1 : world) :
  docs w1 = docs w ->
  Forall (fun p => forall w, exists w',
              f (fst p) (snd p) w = (Returned tt, w') /\ docs w' = docs w) ps ->
  exists w', forEach f ps w1 = (Returned tt, w') /\ docs w' = docs w.
Proof.
  intros Hd HF. destruct (forEach_returns f ps HF w1) as (w' & Hr & Hd').
  exists w'. split; [exact Hr|congruence].
Qed.

Lemma children_return (path : string) (ps : list (string * value)) :
  Forall (fun p => isAMFS (snd p) = true ->
                   forall path w, exists w',
                     writeAMFS (snd p) path w = (Returned tt, w')
                     /\ docs w' = docs w) ps ->
  Forall (fun x => isAMFS x = true) (List.map snd ps) ->
  Forall (fun p => forall w, exists w',
              writeAMFS (snd p) (child_path path (fst p)) w = (Returned tt, w')
              /\ docs w' = docs w) ps.
Proof.
  induction ps as [|[name child] rest IHr]; intros IH Hall; constructor.
  - apply Forall_inv in IH, Hall. intros w0. now apply IH.
  - apply IHr; eapply Forall_inv_tail; eauto.
Qed.

(** Every value accepted by [isAMFS] is materialized without an exception,
    by host calls only. *)
Lemma writeAMFS_returns (node : value) :
  isAMFS node = true ->
  forall path w, exists w',
    writeAMFS node path w = (Returned tt, w') /\ docs w' = docs w.
Proof.
  induction node as [| | b | n | s | bs | ps IH | len ps IH] using value_nested_ind;
    intros Hok path w; rewrite writeAMFS_eq;
    destruct (isAMFSFile _) eqn:Hfile.
  all: try (destruct (get_prop_object_ok _ "contents" (isAMFSFile_is_object _ Hfile))
              as [c ->]; eexists; split; reflexivity).
  all: rewrite isAMFS_unfold, Hfile in Hok; cbn [orb] in Hok;
    apply isAMFSDirectory_iff in Hok as [Hobj Hall]; try discriminate Hobj.
  - destruct bs as [|b bs]; [eexists; split; reflexivity|].
    unfold Object_values in Hall.
    cbn [Object_entries List.map indexed snd] in Hall.
    apply Forall_inv in Hall. unfold byte_value in Hall.
    now rewrite isAMFS_number in Hall.
  - unfold bind at 1. cbn [emit].
    eapply forEach_returns_from; [reflexivity|].
    now apply children_return.
  - unfold bind at 1. cbn [emit].
    eapply forEach_returns_from; [reflexivity|].
    now apply children_return.
Qed.

Lemma decimal_not_contentType (n : N) : String.eqb (decimal n) "contentType" = false.
Proof. unfold decimal. destruct (N.to_uint n); reflexivity. Qed.

Lemma has_key_indexed_contentType (xs : list value) (from : N) :
  has_key "contentType" (indexed from xs) = false.
Proof.
  unfold has_key. revert from. induction xs as [|x xs IH]; intros from; [reflexivity|].
  cbn [indexed lookup_prop]. rewrite decimal_not_contentType. apply IH.
Qed.

Lemma isAMFSFile_array_of (xs : list value) : isAMFSFile (array_of xs) = false.
Proof.
  unfold isAMFSFile, array_of. cbn [has_property].
  rewrite has_key_indexed_contentType. reflexivity.
Qed.

Lemma values_indexed (xs : list value) (from : N) :
  List.map snd (indexed from xs) = xs.
Proof.
  revert from. induction xs as [|x xs IH]; intros from; [reflexivity|].
  cbn. now rewrite IH.
Qed.

Lemma forEach_indexed (path : string) (xs : list value) (from : N) :
  forEach (fun name child => writeAMFS child (child_path path name)) (indexed from xs)
  = write_indexed path from xs.
Proof.
  revert from. induction xs as [|x xs IH]; intros from; [reflexivity|].
  cbn [indexed forEach write_indexed]. now rewrite IH.
Qed.

(** C10: an array all of whose elements are file trees, the empty array
    included, is a tree directory; writing it in Tree mode to a file path
    returns normally, after ensuring the directory and materializing each
    element under the decimal numeral of its index. *)
Theorem array_is_tree_directory (xs : list value) (path : string) (w : world) :
  forallb isAMFS xs = true ->
  isAMFSDirectory (array_of xs) = true
  /\ writeToLocation (LocationFile path) (array_of xs) VT_fs w
     = (emit (EvEnsureDirSync path) ;;; write_indexed path 0 xs) w
  /\ exists w',
       writeToLocation (LocationFile path) (array_of xs) VT_fs w = (Returned tt, w')
       /\ docs w' = docs w.
Proof.
  intros Hxs.
  assert (Hdir : isAMFSDirectory (array_of xs) = true).
  { unfold isAMFSDirectory, Object_values, array_of. cbn [Object_entries].
    now rewrite values_indexed, Hxs. }
  assert (Hok : isAMFS (array_of xs) = true).
  { rewrite isAMFS_unfold, Hdir. apply orb_true_r. }
  split; [exact Hdir|]. cbn [writeToLocation]. rewrite Hok. cbn [negb].
  split.
  - rewrite writeAMFS_eq, isAMFSFile_array_of. unfold array_of.
    now rewrite forEach_indexed.
  - now apply writeAMFS_returns.
Qed.

Lemma array_is_tree_directory_witness :
  let file := VObj [("contentType", VStr "text/plain"); ("contents", VStr "hi")] in
  isAMFSDirectory (array_of [file; array_of []]) = true
  /\ writeToLocation (LocationFile "P") (array_of [file; array_of []]) VT_fs
                     (mkWorld ∅ [])
     = (Returned tt,
        mkWorld ∅ [EvEnsureDirSync "P"; EvWriteFileSync "P/0" (VStr "hi");
                   EvEnsureDirSync "P/1"]).
Proof.
  intros file.
  destruct (array_is_tree_directory [file; array_of []] "P" (mkWorld ∅ []) eq_refl)
    as (Hdir & Hrun & _).
  split; [exact Hdir|]. rewrite Hrun. reflexivity.
Defined.

(** ** Structured serialization *)

Section NoChar.

(** Texts in which the line feed does not occur. *)
Local Abbreviation one_line s := (JsString.mem JsString.newline s = false).

Lemma mem_append (c : ascii) (a b : string) :
  JsString.mem c (a ++ b) = JsString.mem c a || JsString.mem c b.
Proof.
  induction a as [|d a IH]; [reflexivity|].
  simpl. now rewrite IH, orb_assoc.
Qed.

Lemma one_line_append (a b : string) : one_line a -> one_line b -> one_line (a ++ b).
Proof. intros Ha Hb. now rewrite mem_append, Ha, Hb. Qed.

Lemma one_line_join (sep : string) (xs : list string) :
  one_line sep -> Forall (fun x => one_line x) xs -> one_line (JsString.join sep xs).
Proof.
  intros Hsep. induction 1 as [|x rest Hx Hrest IH]; [reflexivity|].
  destruct rest as [|y rest]; [exact Hx|].
  change (JsString.join sep (x :: y :: rest))
    with (x ++ sep ++ JsString.join sep (y :: rest)).
  auto using one_line_append.
Qed.

Lemma one_line_quote_char (c : ascii) : one_line (quote_char c).
Proof. destruct c as [[] [] [] [] [] [] [] []]; reflexivity. Qed.

Lemma one_line_quote (s : string) : one_line (quote s).
Proof.
  unfold quote. cbn [JsString.mem]. apply orb_false_intro; [reflexivity|].
  apply one_line_append; [|reflexivity].
  induction s as [|c r IH]; [reflexivity|].
  cbn [quote_body]. auto using one_line_append, one_line_quote_char.
Qed.

Lemma one_line_digits (d : Decimal.uint) : one_line (NilEmpty.string_of_uint d).
Proof. induction d; cbn; auto. Qed.

Lemma one_line_number (n : Z) : one_line (number_to_string n).
Proof.
  unfold number_to_string, NilZero.string_of_int, NilZero.string_of_uint.
  destruct (Z.to_int n) as [d|d]; destruct d; cbn [JsString.mem];
    try reflexivity; try apply one_line_digits;
    apply orb_false_intro; try reflexivity; apply one_line_digits.
Qed.

Lemma get_not_mem (c d : ascii) (s : string) (i : nat) :
  JsString.mem c s = false -> String.get i s = Some d -> Ascii.eqb d c = false.
Proof.
  revert i. induction s as [|x r IH]; intros i Hm Hg; [discriminate Hg|].
  cbn [JsString.mem] in Hm. apply orb_false_elim in Hm as [Hx Hr].
  destruct i as [|i]; cbn in Hg; [injection Hg as <-; exact Hx|eauto].
Qed.

Lemma base64_digit_not_newline (n : N) :
  Ascii.eqb (base64_digit n) JsString.newline = false.
Proof.
  unfold base64_digit.
  destruct (String.get (N.to_nat n) base64_alphabet) as [c|] eqn:E; [|reflexivity].
  now apply (get_not_mem _ _ base64_alphabet (N.to_nat n)).
Qed.

Lemma one_line_base64_of (fuel : nat) :
  forall bs, (List.length bs <= fuel)%nat -> one_line (base64_of bs).
Proof.
  induction fuel as [|fuel IH]; intros bs Hlen.
  - destruct bs; [reflexivity|cbn in Hlen; lia].
  - destruct bs as [|a [|b [|c rest]]]; cbn [base64_of JsString.mem];
      rewrite ?base64_digit_not_newline; try reflexivity.
    cbn [orb]. apply IH. cbn [List.length] in Hlen. lia.
Qed.

Lemma one_line_base64 (bs : list Byte.byte) : one_line (base64 bs).
Proof. unfold base64. now apply (one_line_base64_of (List.length (List.map Byte.to_N bs))). Qed.

Lemma one_line_primitive (key : string) (v : value) (s : string) :
  serialize_primitive (replacer key v) = Some s -> one_line s.
Proof.
  destruct v as [| | [] | n | t | bs | ps | len ps]; cbn; intros [= <-];
    auto using one_line_quote, one_line_number, one_line_base64.
Qed.

Lemma one_line_wrap (stepback indent opening closing : string) (partial : list string) :
  one_line opening -> one_line closing ->
  Forall (fun x => one_line x) partial ->
  one_line (wrap_members EmptyString stepback indent opening closing partial).
Proof.
  intros Ho Hc Hp. unfold wrap_members.
  destruct partial as [|x rest]; [now apply one_line_append|].
  cbn [String.eqb].
  auto using one_line_append, one_line_join.
Qed.

Lemma one_line_member (key str : string) :
  one_line str -> one_line (member EmptyString key str).
Proof.
  intros H. unfold member. cbn [String.eqb].
  auto using one_line_append, one_line_quote.
Qed.

Lemma one_line_array_element (sers : list (string * option string)) (i : N) :
  Forall (fun p => forall s, snd p = Some s -> one_line s) sers ->
  one_line (array_element sers i).
Proof.
  unfold array_element. induction 1 as [|[k o] rest Hhd _ IH]; [reflexivity|].
  cbn [lookup_prop]. destruct (String.eqb k (decimal i)); [|exact IH].
  destruct o as [s|]; [now apply Hhd|reflexivity].
Qed.

(** The compact serialization never contains a line feed: those inside
    strings are escaped. *)
Lemma one_line_serialize (v : value) :
  forall indent key s,
    serialize EmptyString indent key v = Some s -> one_line s.
Proof.
  induction v as [| | b | n | t | bs | ps IH | len ps IH] using value_nested_ind;
    intros indent key s; try apply one_line_primitive.
  - cbn [serialize]. intros [= <-].
    apply one_line_wrap; try reflexivity.
    induction IH as [|[k x] rest Hhd _ IHrest]; [constructor|].
    cbn [object_members snd] in *.
    destruct (serialize _ _ k x) as [str|] eqn:E; [|exact IHrest].
    constructor; [|exact IHrest]. apply one_line_member. eauto.
  - cbn [serialize]. intros [= <-].
    apply one_line_wrap; try reflexivity.
    apply Stdlib.Lists.List.Forall_forall.
    intros x Hx. apply in_map_iff in Hx as (i & <- & _).
    apply one_line_array_element.
    induction IH as [|[k x] rest Hhd _ IHrest]; constructor; [|exact IHrest].
    cbn [snd] in *. eauto.
Qed.

End NoChar.

Lemma endsWith_append_char (c : ascii) (s : string) :
  JsString.endsWithChar c (s ++ JsString.str1 c) = true.
Proof.
  induction s as [|d r IH]; [apply Ascii.eqb_refl|].
  simpl. destruct r; exact IH.
Qed.

Lemma concat_newline_ends (x : option string) :
  JsString.endsWithChar JsString.newline (concat_newline x) = true.
Proof. destruct x; apply endsWith_append_char. Qed.

(** C1, as the code has it: in Structured mode a value written to a file
    path is serialized with an indentation of two and followed by a line
    feed; written to the stream it is serialized compactly, on one line, and
    followed by a line feed as well. *)
Theorem structured_text_output (val : value) (w : world) :
  (forall path,
      writeToLocation (LocationFile path) val VT_json w
      = (Returned tt,
         logged w (EvWriteFile path
                     (VStr (concat_newline (JSON_stringify val (Some 2%nat)))))))
  /\ writeToLocation LocationPipe val VT_json w
     = (Returned tt,
        logged w (EvStdoutWrite (VStr (concat_newline (JSON_stringify val None)))))
  /\ (forall space,
         JsString.endsWithChar JsString.newline
           (concat_newline (JSON_stringify val space)) = true)
  /\ (forall line,
         JSON_stringify val None = Some line ->
         JsString.mem JsString.newline line = false).
Proof.
  split; [reflexivity|]. split; [reflexivity|]. split.
  - intros space. apply concat_newline_ends.
  - intros line. apply one_line_serialize.
Qed.

Lemma structured_text_output_witness :
  let val := VObj [("n", VNum 5); ("s", VStr "x")] in
  let nl := JsString.str1 JsString.newline in
  JSON_stringify val None = Some ("{" ++ quoted "n" ++ ":5," ++ quoted "s" ++ ":" ++ quoted "x" ++ "}")
  /\ JSON_stringify val (Some 2%nat)
     = Some ("{" ++ nl ++ "  " ++ quoted "n" ++ ": 5," ++ nl
             ++ "  " ++ quoted "s" ++ ": " ++ quoted "x" ++ nl ++ "}")
  /\ JsString.mem JsString.newline
       ("{" ++ quoted "n" ++ ":5," ++ quoted "s" ++ ":" ++ quoted "x" ++ "}") = false
  /\ writeToLocation (LocationFile "out.json") val VT_json (mkWorld ∅ [])
     = (Returned tt,
        mkWorld ∅ [EvWriteFile "out.json"
                     (VStr ("{" ++ nl ++ "  " ++ quoted "n" ++ ": 5," ++ nl
                            ++ "  " ++ quoted "s" ++ ": " ++ quoted "x" ++ nl ++ "}" ++ nl))]).
Proof.
  intros val nl.
  destruct (structured_text_output val (mkWorld ∅ [])) as (Hfile & _ & _ & Hline).
  split; [reflexivity|]. split; [reflexivity|]. split.
  - apply Hline. reflexivity.
  - rewrite Hfile. reflexivity.
Defined.

(** C1 fails as stated for the stream: the compact text written to standard
    output does end in a line feed. *)
Lemma stream_trailing_newline_counterexample :
  let val := VObj [("n", VNum 5); ("s", VStr "x")] in
  let text := "{" ++ quoted "n" ++ ":5," ++ quoted "s" ++ ":" ++ quoted "x" ++ "}"
              ++ JsString.str1 JsString.newline in
  writeToLocation LocationPipe val VT_json (mkWorld ∅ [])
  = (Returned tt, mkWorld ∅ [EvStdoutWrite (VStr text)])
  /\ JsString.endsWithChar JsString.newline text = true
  /\ ~ (forall v w, exists t,
          writeToLocation LocationPipe v VT_json w
          = (Returned tt, logged w (EvStdoutWrite (VStr t)))
          /\ JsString.endsWithChar JsString.newline t = false).
Proof.
  intros val text. split; [reflexivity|]. split; [reflexivity|].
  intros H. destruct (H val (mkWorld ∅ [])) as (t & Hrun & Hend).
  assert (t = text) as -> by (cbv in Hrun; now injection Hrun as <-).
  discriminate Hend.
Qed.

(** * Further properties of the code *)

(** ** Splitting, joining and prefixes *)

Section SplitFacts.

Variable sep : ascii.

Lemma split_pieces_no_sep (s : string) :
  Forall (fun x => JsString.mem sep x = false) (JsString.split sep s).
Proof.
  induction s as [|c r IH]; [repeat constructor|].
  cbn [JsString.split]. destruct (Ascii.eqb c sep) eqn:E.
  - constructor; [reflexivity|exact IH].
  - destruct (JsString.split sep r) as [|h t]; [repeat constructor; simpl; now rewrite E|].
    apply Forall_cons_iff in IH as [Hh Ht].
    constructor; [simpl; now rewrite E, Hh|exact Ht].
Qed.

Lemma split_single (a : string) :
  JsString.mem sep a = false -> JsString.split sep a = [a].
Proof.
  induction a as [|c r IH]; [reflexivity|]. simpl.
  intros H. apply orb_false_elim in H as [Hc Hr]. now rewrite Hc, IH.
Qed.

Lemma split_append (a b : string) :
  JsString.mem sep a = false ->
  JsString.split sep (a ++ String sep b) = a :: JsString.split sep b.
Proof.
  induction a as [|c r IH]; simpl.
  - intros _. now rewrite Ascii.eqb_refl.
  - intros H. apply orb_false_elim in H as [Hc Hr]. now rewrite Hc, IH.
Qed.

(** Splitting a join of separator-free pieces gives the pieces back. *)
Lemma split_join (xs : list string) :
  xs <> [] ->
  Forall (fun x => JsString.mem sep x = false) xs ->
  JsString.split sep (JsString.join (JsString.str1 sep) xs) = xs.
Proof.
  intros Hne Hxs. induction Hxs as [|x rest Hx Hrest IH]; [congruence|].
  destruct rest as [|y rest]; [now apply split_single|].
  rewrite join_cons_cons, split_append by exact Hx.
  now rewrite IH.
Qed.

End SplitFacts.

Lemma prefix_nil (s : string) : String.prefix EmptyString s = true.
Proof. now destruct s. Qed.

Lemma prefix_cons (x y : ascii) (p s : string) :
  String.prefix (String x p) (String y s) = true <-> x = y /\ String.prefix p s = true.
Proof.
  simpl. destruct (ascii_dec x y) as [E|E]; split.
  - intros H. now split.
  - now intros [_ H].
  - discriminate.
  - intros [H _]. contradiction.
Qed.

Lemma prefix_append (p a b : string) :
  String.prefix p a = true -> String.prefix p (a ++ b) = true.
Proof.
  revert a. induction p as [|x p IH]; intros a H; [apply prefix_nil|].
  destruct a as [|y a]; [discriminate H|].
  apply prefix_cons in H as [-> H]. change (String y a ++ b) with (String y (a ++ b)).
  apply prefix_cons. auto.
Qed.

Lemma prefix_self_append (a b : string) : String.prefix a (a ++ b) = true.
Proof.
  induction a as [|x a IH]; [apply prefix_nil|].
  change (String x a ++ b) with (String x (a ++ b)). now apply prefix_cons.
Qed.

Lemma prefix_trans (a b c : string) :
  String.prefix a b = true -> String.prefix b c = true -> String.prefix a c = true.
Proof.
  revert b c. induction a as [|x a IH]; intros b c Hab Hbc; [apply prefix_nil|].
  destruct b as [|y b]; [discriminate Hab|]. destruct c as [|z c]; [discriminate Hbc|].
  apply prefix_cons in Hab as [-> Hab], Hbc as [-> Hbc]. apply prefix_cons. eauto.
Qed.

Lemma prefix_before (c : ascii) (p s : string) :
  JsString.mem c p = false -> String.prefix p s = true ->
  String.prefix p (JsString.before c s) = true.
Proof.
  revert s. induction p as [|x p IH]; intros s Hm H; [apply prefix_nil|].
  destruct s as [|y s]; [discriminate H|].
  apply prefix_cons in H as [-> H]. cbn [JsString.mem] in Hm.
  apply orb_false_elim in Hm as [Hy Hp].
  cbn [JsString.before]. rewrite Hy. apply prefix_cons. auto.
Qed.

(** ** More on locations *)

Lemma parse_pipe_inv (s : string) : parseLocation s = LocationPipe -> s = "-".
Proof.
  unfold parseLocation. destruct (String.eqb_spec s "-") as [->|_]; [reflexivity|].
  destruct (JsString.startsWith s automerge_prefix); [|discriminate].
  destruct (JsString.split JsString.slash s); discriminate.
Qed.

(** X1: [parseLocation] is injective: two different address texts never
    denote the same location. *)
Theorem parseLocation_injective (s1 s2 : string) :
  s1 <> s2 -> parseLocation s1 <> parseLocation s2.
Proof.
  intros Hne Heq.
  destruct (string_dec s1 "-") as [->|H1].
  - symmetry in Heq. apply parse_pipe_inv in Heq. congruence.
  - destruct (string_dec s2 "-") as [->|H2].
    + apply parse_pipe_inv in Heq. congruence.
    + apply Hne. rewrite <- (stringify_parse s1 H1), <- (stringify_parse s2 H2).
      now rewrite Heq.
Qed.

Lemma parseLocation_injective_witness :
  parseLocation "automerge:abc/x" <> parseLocation "automerge:abc/x/".
Proof. apply parseLocation_injective. discriminate. Defined.

(** X2: what [parseLocation] guarantees about a document location: the
    address is the identifier and the keys joined by "/", the identifier
    starts with the scheme prefix, and neither it nor any key contains a
    "/". *)
Theorem parsed_document_invariants (s docUrl : string) (path : list string) :
  parseLocation s = LocationAutomerge docUrl path ->
  s = JsString.join "/" (docUrl :: path)
  /\ JsString.startsWith docUrl automerge_prefix = true
  /\ JsString.mem JsString.slash docUrl = false
  /\ Forall (fun key => JsString.mem JsString.slash key = false) path.
Proof.
  unfold parseLocation. destruct (String.eqb s "-"); [discriminate|].
  destruct (JsString.startsWith s automerge_prefix) eqn:Hp; [|discriminate].
  pose proof (join_split JsString.slash s) as Hj.
  pose proof (split_pieces_no_sep JsString.slash s) as Hs.
  pose proof (split_before_after JsString.slash s) as Hb.
  destruct (JsString.split JsString.slash s) as [|d p]; [discriminate|].
  intros [= <- <-]. apply Forall_cons_iff in Hs as [Hd Hpath].
  repeat split; auto.
  injection Hb as -> _. now apply prefix_before.
Qed.

Lemma parsed_document_invariants_witness :
  "automerge:abc/x/y" = JsString.join "/" ["automerge:abc"; "x"; "y"]
  /\ JsString.startsWith "automerge:abc" automerge_prefix = true
  /\ JsString.mem JsString.slash "automerge:abc" = false
  /\ Forall (fun key => JsString.mem JsString.slash key = false) ["x"; "y"].
Proof. apply (parsed_document_invariants "automerge:abc/x/y"). reflexivity. Defined.

Lemma no_slash_pieces (xs : list string) :
  Forall (fun x => JsString.mem JsString.slash x = false) xs ->
  forallb no_slash xs = true.
Proof.
  induction 1 as [|x rest Hx _ IH]; [reflexivity|].
  cbn [forallb]. unfold no_slash at 1. now rewrite Hx, IH.
Qed.

Lemma well_formed_parse (s : string) :
  s <> "-" -> well_formed (parseLocation s) = true.
Proof.
  intros Hs. unfold parseLocation.
  destruct (String.eqb_spec s "-") as [E|_]; [contradiction|].
  destruct (JsString.startsWith s automerge_prefix) eqn:Hp.
  - pose proof (no_slash_pieces _ (split_pieces_no_sep JsString.slash s)) as Hpieces.
    rewrite split_before_after in *. cbn [well_formed forallb] in *.
    apply andb_prop in Hpieces as [Hd Hk]. rewrite Hd, Hk.
    unfold JsString.startsWith in *.
    now rewrite (prefix_before JsString.slash automerge_prefix s eq_refl Hp).
  - cbn [well_formed]. rewrite Hp.
    destruct (String.eqb_spec s "-"); [contradiction|reflexivity].
Qed.

(** X3: the display form of a location parses back to the location exactly
    when the location is well formed: a document whose identifier has the
    scheme prefix and whose identifier and keys have no "/", or a file path
    that is not "-" and does not start with the scheme prefix.  The pipe
    never does. *)
Theorem stringify_then_parse (l : Location) :
  parseLocation (stringifyLocation l) = l <-> well_formed l = true.
Proof.
  split.
  - intros H. destruct (string_dec (stringifyLocation l) "-") as [E|E].
    + rewrite E in H. now subst l.
    + rewrite <- H. now apply well_formed_parse.
  - destruct l as [d p| p |]; cbn [well_formed stringifyLocation]; [| |discriminate].
    + intros H. apply andb_prop in H as [H Hk]. apply andb_prop in H as [Hp Hd].
      unfold no_slash in *. apply negb_true_iff in Hd.
      assert (Hall : Forall (fun x => JsString.mem JsString.slash x = false) (d :: p)).
      { constructor; [exact Hd|]. apply Stdlib.Lists.List.Forall_forall. intros k Hin.
        apply negb_true_iff. revert k Hin. now apply forallb_forall. }
      assert (Hs : JsString.startsWith
                     (JsString.join (JsString.str1 JsString.slash) (d :: p))
                     automerge_prefix = true).
      { unfold JsString.startsWith in *. destruct p; [exact Hp|].
        rewrite join_cons_cons. now apply prefix_append. }
      unfold parseLocation. rewrite (startsWith_not_dash _ Hs), Hs.
      now rewrite split_join.
    + intros H. apply andb_prop in H as [H1 H2].
      apply negb_true_iff in H1, H2. unfold parseLocation. now rewrite H1, H2.
Qed.

Lemma stringify_then_parse_witness :
  parseLocation (stringifyLocation (LocationAutomerge "automerge:abc" ["x"; "y"]))
  = LocationAutomerge "automerge:abc" ["x"; "y"]
  /\ well_formed (LocationFile "automerge:notes.txt") = false
  /\ parseLocation (stringifyLocation (LocationFile "automerge:notes.txt"))
     = LocationAutomerge "automerge:notes.txt" [].
Proof.
  split; [|split; reflexivity].
  apply (proj2 (stringify_then_parse (LocationAutomerge "automerge:abc" ["x"; "y"]))).
  reflexivity.
Defined.

(** ** More on path access *)

(** X4: reading along a concatenated path is reading along the first part
    and then, from the value reached, along the second; an exception in the
    first part is the exception of the whole read. *)
Theorem getAtPath_app (doc : value) (p q : list string) :
  getAtPath doc (p ++ q)%list = rbind (getAtPath doc p) (fun v => getAtPath v q).
Proof.
  revert doc. induction p as [|k p IH]; intros doc; [reflexivity|].
  cbn [List.app getAtPath]. destruct (get_prop doc k) as [x|e]; [apply IH|reflexivity].
Qed.

Lemma getAtPath_past_nothing (x : value) (q : list string) :
  x = VUndefined \/ x = VNull -> q <> [] -> getAtPath x q = Throw TypeError.
Proof. intros [-> | ->] Hq; (destruct q; [congruence|reflexivity]). Qed.

Lemma getAtPath_continue (p : list string) :
  forall doc x q,
    getAtPath doc p = Ok x -> getAtPath doc (p ++ q)%list = getAtPath x q.
Proof.
  induction p as [|k p IH]; intros doc x q; [now intros [= ->]|].
  cbn [List.app getAtPath]. destruct (get_prop doc k) as [y|e]; [apply IH|discriminate].
Qed.

(** X5: a key that an object neither has nor inherits from
    [Object.prototype] reads as [undefined], and a path that goes on after
    reaching [undefined] or [null] throws a [TypeError]. *)
Theorem getAtPath_missing (doc : value) (p q : list string) :
  (forall ps k, doc = VObj ps -> inherited_name k = false ->
                lookup_prop k ps = None ->
                getAtPath doc [k] = Ok VUndefined)
  /\ (forall x, getAtPath doc p = Ok x -> x = VUndefined \/ x = VNull -> q <> [] ->
                getAtPath doc (p ++ q)%list = Throw TypeError).
Proof.
  split.
  - intros ps k -> _ Hk. cbn. now rewrite Hk.
  - intros x Hx Hnothing Hq. rewrite (getAtPath_continue p doc x q Hx).
    now apply getAtPath_past_nothing.
Qed.

Lemma getAtPath_missing_witness :
  getAtPath (VObj [("a", VObj [])]) ["b"] = Ok VUndefined
  /\ getAtPath (VObj [("a", VObj [])]) (["a"; "b"] ++ ["c"])%list = Throw TypeError.
Proof.
  split.
  { apply (proj1 (getAtPath_missing (VObj [("a", VObj [])]) [] [])
             [("a", VObj [])] "b"); reflexivity. }
  apply (proj2 (getAtPath_missing (VObj [("a", VObj [])]) ["a"; "b"] ["c"]) VUndefined);
    [reflexivity | now left | discriminate].
Defined.

Lemma update_at_read_fails (doc : value) (keys : list string)
  (f : value -> result value) (e : exn) :
  getAtPath doc keys = Throw e -> update_at doc keys f = Throw e.
Proof.
  revert doc. induction keys as [|k keys IH]; intros doc; [discriminate|].
  cbn [getAtPath update_at]. destruct (get_prop doc k) as [x|e']; cbn [rbind].
  - intros H. now rewrite (IH x H).
  - now intros [= ->].
Qed.

Lemma update_at_reached (doc : value) (keys : list string)
  (f : value -> result value) (parent : value) :
  getAtPath doc keys = Ok parent ->
  match f parent with
  | Ok _ => exists doc', update_at doc keys f = Ok doc'
  | Throw e => update_at doc keys f = Throw e
  end.
Proof.
  revert doc. induction keys as [|k keys IH]; intros doc.
  - intros [= ->]. cbn. destruct (f parent); eauto.
  - cbn [getAtPath update_at]. destruct (get_prop doc k) as [x|e']; cbn [rbind];
      [|discriminate].
    intros H. specialize (IH x H). destruct (f parent).
    + destruct IH as [x' ->]. cbn. eauto.
    + now rewrite IH.
Qed.

(** X6: [setAtPath] throws exactly when reading the parent of the last key
    throws, or when the parent that is reached does not accept the
    assignment; in both cases with that very exception. *)
Theorem setAtPath_throws_iff (doc : value) (path : list string) (v : value) (e : exn) :
  setAtPath doc path v = Throw e
  <-> getAtPath doc (slice_init path) = Throw e
      \/ exists parent,
           getAtPath doc (slice_init path) = Ok parent
           /\ set_prop parent (last_key path) v = Throw e.
Proof.
  unfold setAtPath.
  destruct (getAtPath doc (slice_init path)) as [parent|e'] eqn:Hread.
  - pose proof (update_at_reached doc (slice_init path)
                  (fun doclet => set_prop doclet (last_key path) v) parent Hread) as H.
    cbv beta in H. split.
    + intros Hset. right. exists parent. split; [reflexivity|].
      destruct (set_prop parent (last_key path) v); [|congruence].
      destruct H as [doc' H]. congruence.
    + intros [Hr|(parent' & [= <-] & Hw)]; [discriminate|]. now rewrite Hw in H.
  - rewrite (update_at_read_fails _ _ _ _ Hread). split.
    + intros [= ->]. now left.
    + intros [[= ->]|(parent & Hr & _)]; [reflexivity|discriminate].
Qed.

Lemma setAtPath_throws_iff_witness :
  setAtPath (VObj [("a", VStr "text")]) ["a"; "b"] (VNum 1) = Throw TypeError.
Proof.
  apply (proj2 (setAtPath_throws_iff (VObj [("a", VStr "text")]) ["a"; "b"]
                  (VNum 1) TypeError)).
  right. exists (VStr "text"). split; reflexivity.
Defined.

(** X7: [setAtPath] creates no intermediate container: when the first key
    of a longer path is neither a property of the object nor a name it
    inherits from [Object.prototype], it throws a [TypeError].  On the
    empty path the last key reads as [undefined], so the value is stored
    under the key "undefined". *)
Theorem setAtPath_edges (ps : list (string * value)) (v : value) :
  (forall k k2 rest, inherited_name k = false -> lookup_prop k ps = None ->
                     setAtPath (VObj ps) (k :: k2 :: rest) v = Throw TypeError)
  /\ (exists root', setAtPath (VObj ps) [] v = Ok root'
                    /\ getAtPath root' ["undefined"] = Ok v).
Proof.
  split.
  - intros k k2 rest _ Hk. rewrite setAtPath_cons. cbn [get_prop]. rewrite Hk.
    cbn [rbind]. now destruct rest.
  - exists (VObj (assign_prop "undefined" v ps)). split; [reflexivity|].
    cbn [getAtPath]. now rewrite get_prop_obj_assign.
Qed.

Lemma setAtPath_edges_witness :
  setAtPath (VObj [("a", VNum 1)]) ["b"; "c"] VNull = Throw TypeError.
Proof.
  apply (proj1 (setAtPath_edges [("a", VNum 1)] VNull) "b" "c" []); reflexivity.
Defined.

Section Overwrite.

Implicit Types (k : string) (ps : list (string * value)).

Lemma replace_replace k (v1 v2 : value) ps :
  replace_prop k v2 (replace_prop k v1 ps) = replace_prop k v2 ps.
Proof.
  induction ps as [|[k' v'] rest IH]; [reflexivity|]. simpl.
  destruct (String.eqb k' k) eqn:E; simpl; rewrite E; [reflexivity|now rewrite IH].
Qed.

Lemma has_key_replace k (v : value) ps :
  has_key k (replace_prop k v ps) = has_key k ps.
Proof.
  unfold has_key. induction ps as [|[k' v'] rest IH]; [reflexivity|]. simpl.
  destruct (String.eqb k' k) eqn:E; simpl; rewrite E; [reflexivity|exact IH].
Qed.

Lemma has_key_cons_false k k' (v' : value) ps :
  has_key k ((k', v') :: ps) = false ->
  String.eqb k' k = false /\ has_key k ps = false.
Proof.
  unfold has_key. simpl. destruct (String.eqb k' k); [discriminate|now split].
Qed.

Lemma replace_insert_index i k (v1 v2 : value) ps :
  has_key k ps = false ->
  replace_prop k v2 (insert_index i k v1 ps) = insert_index i k v2 ps.
Proof.
  induction ps as [|[k' v'] rest IH]; intros Hk; simpl.
  - now rewrite String.eqb_refl.
  - apply has_key_cons_false in Hk as [E Hk].
    destruct (parse_index k') as [j|]; [destruct (N.ltb j i)|]; simpl;
      rewrite ?E, ?String.eqb_refl; [now rewrite IH|reflexivity|reflexivity].
Qed.

Lemma replace_appended k (v1 v2 : value) ps :
  has_key k ps = false ->
  replace_prop k v2 (ps ++ [(k, v1)])%list = (ps ++ [(k, v2)])%list.
Proof.
  induction ps as [|[k' v'] rest IH]; intros Hk; simpl.
  - now rewrite String.eqb_refl.
  - apply has_key_cons_false in Hk as [E Hk]. now rewrite E, IH.
Qed.

Lemma has_key_assign k (v : value) ps : has_key k (assign_prop k v ps) = true.
Proof. unfold has_key. now rewrite lookup_assign_same. Qed.

(** Assigning twice to a property is assigning the second value. *)
Lemma assign_assign k (v1 v2 : value) ps :
  assign_prop k v2 (assign_prop k v1 ps) = assign_prop k v2 ps.
Proof.
  unfold assign_prop at 1. rewrite has_key_assign.
  unfold assign_prop. destruct (has_key k ps) eqn:Hk.
  - apply replace_replace.
  - destruct (parse_index k).
    + now apply replace_insert_index.
    + now apply replace_appended.
Qed.

End Overwrite.

(** On a skeleton [setAtPath] succeeds, the value can be read back, and the
    path is still a skeleton of the result. *)
Lemma setAtPath_skeleton (path : list string) :
  forall (root v : value),
    is_skeleton root path = true ->
    exists root',
      setAtPath root path v = Ok root'
      /\ getAtPath root' path = Ok v
      /\ is_skeleton root' path = true.
Proof.
  induction path as [|k rest IH]; intros root v Hsk; [discriminate Hsk|].
  destruct root as [| | | | | |ps|]; try discriminate Hsk.
  destruct rest as [|k2 rest].
  - exists (VObj (assign_prop k v ps)). repeat split.
    cbn [getAtPath]. now rewrite get_prop_obj_assign.
  - cbn [is_skeleton] in Hsk.
    destruct (lookup_prop k ps) as [child|] eqn:Hk; [|discriminate Hsk].
    destruct (IH child v Hsk) as (child' & Hset & Hget & Hsk').
    assert (Hl : lookup_prop k (replace_prop k child' ps) = Some child')
      by (apply lookup_replace_same; unfold has_key; now rewrite Hk).
    exists (VObj (replace_prop k child' ps)). split; [|split].
    + rewrite setAtPath_cons. cbn [get_prop]. rewrite Hk. cbn [rbind].
      now rewrite Hset.
    + cbn [getAtPath get_prop]. now rewrite Hl.
    + cbn [is_skeleton]. now rewrite Hl.
Qed.

(** X8: on a skeleton, for a last key other than "__proto__", writing a
    second value at the same path gives what writing only the second value
    gives: the last write wins and the first leaves no trace; the path stays
    a skeleton in between. *)
Theorem setAtPath_overwrite (path : list string) :
  forall (root v1 v2 : value),
    is_skeleton root path = true ->
    last_key path <> "__proto__" ->
    exists r1,
      setAtPath root path v1 = Ok r1
      /\ is_skeleton r1 path = true
      /\ setAtPath r1 path v2 = setAtPath root path v2.
Proof.
  induction path as [|k rest IH]; intros root v1 v2 Hsk Hlast; [discriminate Hsk|].
  destruct root as [| | | | | |ps|]; try discriminate Hsk.
  destruct rest as [|k2 rest].
  - exists (VObj (assign_prop k v1 ps)). repeat split.
    unfold setAtPath. cbn. now rewrite assign_assign.
  - cbn [is_skeleton] in Hsk. rewrite last_key_cons in Hlast.
    destruct (lookup_prop k ps) as [child|] eqn:Hk; [|discriminate Hsk].
    destruct (IH child v1 v2 Hsk Hlast) as (c1 & Hset & Hsk1 & Hagain).
    assert (Hl : lookup_prop k (replace_prop k c1 ps) = Some c1)
      by (apply lookup_replace_same; unfold has_key; now rewrite Hk).
    exists (VObj (replace_prop k c1 ps)). split; [|split].
    + rewrite setAtPath_cons. cbn [get_prop]. rewrite Hk. cbn [rbind].
      now rewrite Hset.
    + cbn [is_skeleton]. now rewrite Hl.
    + rewrite !setAtPath_cons. cbn [get_prop]. rewrite Hl, Hk. cbn [rbind].
      rewrite Hagain. destruct (setAtPath child (k2 :: rest) v2); [|reflexivity].
      cbn [rbind put_back]. now rewrite replace_replace.
Qed.

Lemma setAtPath_overwrite_witness :
  exists r1,
    setAtPath (VObj [("a", VObj [("b", VNum 0)])]) ["a"; "c"] (VNum 1) = Ok r1
    /\ is_skeleton r1 ["a"; "c"] = true
    /\ setAtPath r1 ["a"; "c"] (VNum 2)
       = setAtPath (VObj [("a", VObj [("b", VNum 0)])]) ["a"; "c"] (VNum 2).
Proof. apply setAtPath_overwrite; [reflexivity | discriminate]. Defined.

(** X9: on a skeleton, for a last key other than "__proto__", [setAtPath]
    changes nothing that is read along a path that parts ways with the
    written one. *)
Theorem setAtPath_frame (p : list string) :
  forall (root root' v : value) (q : list string),
    is_skeleton root p = true -> last_key p <> "__proto__" ->
    diverge p q = true ->
    setAtPath root p v = Ok root' ->
    getAtPath root' q = getAtPath root q.
Proof.
  induction p as [|k rest IH]; intros root root' v q Hsk Hlast Hdiv Hset;
    [discriminate Hsk|].
  destruct root as [| | | | | |ps|]; try discriminate Hsk.
  destruct q as [|k' q]; [discriminate Hdiv|]. cbn [diverge] in Hdiv.
  destruct rest as [|k2 rest].
  - change (Ok (VObj (assign_prop k v ps)) = Ok root') in Hset.
    injection Hset as <-.
    destruct (String.eqb_spec k k') as [->|Hne]; [now destruct q|].
    cbn [getAtPath get_prop].
    rewrite (lookup_assign_other k k' v ps) by (intros E; now apply Hne).
    reflexivity.
  - cbn [is_skeleton] in Hsk. rewrite last_key_cons in Hlast.
    destruct (lookup_prop k ps) as [child|] eqn:Hk; [|discriminate Hsk].
    rewrite setAtPath_cons in Hset. cbn [get_prop] in Hset. rewrite Hk in Hset.
    cbn [rbind] in Hset.
    destruct (setAtPath child (k2 :: rest) v) as [child'|] eqn:Hc; [|discriminate Hset].
    injection Hset as <-. cbn [getAtPath get_prop put_back].
    destruct (String.eqb_spec k k') as [<-|Hne].
    + rewrite lookup_replace_same by (unfold has_key; now rewrite Hk).
      rewrite Hk. cbn [rbind]. eapply IH; eauto.
    + rewrite (lookup_replace_other k k' child' ps) by (intros E; now apply Hne).
      reflexivity.
Qed.

Lemma setAtPath_frame_witness :
  getAtPath (VObj [("a", VObj [("b", VNum 1); ("c", VStr "keep")])]) ["a"; "c"]
  = getAtPath (VObj [("a", VObj [("b", VNum 0); ("c", VStr "keep")])]) ["a"; "c"].
Proof.
  apply (setAtPath_frame ["a"; "b"]
           (VObj [("a", VObj [("b", VNum 0); ("c", VStr "keep")])])
           (VObj [("a", VObj [("b", VNum 1); ("c", VStr "keep")])])
           (VNum 1) ["a"; "c"]); [reflexivity | discriminate | reflexivity..].
Defined.

(** ** More on writing to a document *)

(** X10: for a non-empty path, writing to a document in raw or structured
    mode stores the result of [setAtPath] on the current document, whatever
    the mode; when [setAtPath] throws, the exception is the outcome and the
    document stays as it was; no host call is made either way. *)
Theorem document_write_is_setAtPath
  (docUrl : string) (path : list string) (val doc : value) (type : ValueType)
  (w : world) :
  path <> [] -> is_fs type = false -> docs w !! docUrl = Some doc ->
  writeToLocation (LocationAutomerge docUrl path) val type w
  = match setAtPath doc path val with
    | Ok doc' => (Returned tt, stored w docUrl doc')
    | Throw e => (Thrown e, w)
    end.
Proof.
  intros Hpath Htype Hdoc.
  assert (Hw : writeToLocation (LocationAutomerge docUrl path) val type
               = handle_change docUrl (change_callback path val))
    by (destruct type; [discriminate Htype|reflexivity|reflexivity]).
  rewrite Hw. unfold handle_change. rewrite Hdoc.
  destruct path as [|k rest]; [congruence|]. reflexivity.
Qed.

Lemma document_write_is_setAtPath_witness :
  let w := mkWorld {[ "automerge:d" := VObj [("a", VObj [])] ]} [] in
  writeToLocation (LocationAutomerge "automerge:d" ["a"; "b"]) (VStr "raw text") VT_raw w
  = (Returned tt, stored w "automerge:d" (VObj [("a", VObj [("b", VStr "raw text")])]))
  /\ writeToLocation (LocationAutomerge "automerge:d" ["x"; "y"]) (VNum 1) VT_json w
     = (Thrown TypeError, w).
Proof.
  intros w. split.
  - rewrite (document_write_is_setAtPath "automerge:d" ["a"; "b"] (VStr "raw text")
               (VObj [("a", VObj [])]) VT_raw w); [reflexivity|discriminate|reflexivity..].
  - rewrite (document_write_is_setAtPath "automerge:d" ["x"; "y"] (VNum 1)
               (VObj [("a", VObj [])]) VT_json w); [reflexivity|discriminate|reflexivity..].
Defined.

Lemma is_skeleton_object (root : value) (path : list string) :
  is_skeleton root path = true -> exists ps, root = VObj ps.
Proof. destruct path; [discriminate|]. destruct root; try discriminate. eauto. Qed.

(** X11: a value written in structured mode into a document at a path
    through existing objects is what a following one-shot copy from that
    same location to the pipe prints: the compact serialization of the value
    and a line feed on standard output, nothing on the error stream, and
    exit status 0. *)
Theorem write_then_copy_back
  (docUrl : string) (path : list string) (val doc : value)
  (changes : list value) (w : world) :
  docs w !! docUrl = Some doc -> is_skeleton doc path = true ->
  exists w1,
    writeToLocation (LocationAutomerge docUrl path) val VT_json w = (Returned tt, w1)
    /\ events w1 = events w
    /\ cpFromAutomerge docUrl path LocationPipe VT_json false changes w1
       = (Exited 0,
          logged w1 (EvStdoutWrite (VStr (concat_newline (JSON_stringify val None))))).
Proof.
  intros Hdoc Hsk.
  destruct (setAtPath_skeleton path doc val Hsk) as (doc' & Hset & Hget & Hsk').
  destruct (is_skeleton_object doc' path Hsk') as [ps ->].
  exists (stored w docUrl (VObj ps)). split; [|split; [reflexivity|]].
  - cbn [writeToLocation]. unfold handle_change. rewrite Hdoc.
    destruct path as [|k rest]; [discriminate Hsk|].
    change (change_callback (k :: rest) val doc) with (setAtPath doc (k :: rest) val).
    now rewrite Hset.
  - unfold cpFromAutomerge, handle_doc, onDoc, bind. cbn [is_raw andb].
    cbn [stored docs]. rewrite lookup_insert_eq. cbn [truthy negb lift].
    rewrite Hget. reflexivity.
Qed.

Lemma write_then_copy_back_witness :
  let w := mkWorld {[ "automerge:d" := VObj [("a", VObj [])] ]} [] in
  exists w1,
    writeToLocation (LocationAutomerge "automerge:d" ["a"; "n"]) (VNum 5) VT_json w
    = (Returned tt, w1)
    /\ events w1 = events w
    /\ cpFromAutomerge "automerge:d" ["a"; "n"] LocationPipe VT_json false [] w1
       = (Exited 0,
          logged w1 (EvStdoutWrite (VStr (concat_newline (JSON_stringify (VNum 5) None))))).
Proof.
  intros w.
  apply (write_then_copy_back "automerge:d" ["a"; "n"] (VNum 5) (VObj [("a", VObj [])]) [] w);
    reflexivity.
Defined.

Lemma replace_prop_same (k : string) (x : value) (ps : list (string * value)) :
  lookup_prop k ps = Some x -> replace_prop k x ps = ps.
Proof.
  induction ps as [|[k' v'] rest IH]; [reflexivity|]. simpl.
  destruct (String.eqb k' k); [now intros [= ->]|]. intros H. now rewrite IH.
Qed.

Lemma assign_prop_same (k : string) (x : value) (ps : list (string * value)) :
  lookup_prop k ps = Some x -> assign_prop k x ps = ps.
Proof.
  intros H. unfold assign_prop, has_key. rewrite H. now apply replace_prop_same.
Qed.

Lemma assign_keys_fixed (val : value) (keys : list string) (root : list (string * value)) :
  (forall k, In k keys -> exists x, get_prop val k = Ok x /\ lookup_prop k root = Some x) ->
  assign_keys val keys (VObj root) = Ok (VObj root).
Proof.
  induction keys as [|key rest IH]; intros H; [reflexivity|].
  destruct (H key (or_introl eq_refl)) as (x & Hx & Hl).
  cbn [assign_keys]. rewrite Hx. cbn [rbind set_prop].
  rewrite (assign_prop_same key x root Hl).
  apply IH. intros k Hk. apply H. now right.
Qed.

(** X12: merging an object into a document root a second time changes
    nothing: after the first structured write of the object, writing it
    again returns and leaves the world exactly as it is. *)
Theorem root_merge_idempotent
  (docUrl : string) (val : value) (root : list (string * value)) (w : world) :
  docs w !! docUrl = Some (VObj root) -> is_object val = true ->
  exists w1,
    writeToLocation (LocationAutomerge docUrl []) val VT_json w = (Returned tt, w1)
    /\ writeToLocation (LocationAutomerge docUrl []) val VT_json w1 = (Returned tt, w1).
Proof.
  intros Hdoc Hobj.
  destruct (assign_keys_lookup val (for_in_keys val) Hobj root) as (root' & Hrun & Hin).
  exists (stored w docUrl (VObj root')). split.
  - cbn [writeToLocation]. unfold handle_change. rewrite Hdoc.
    rewrite change_callback_root_object by assumption. now rewrite Hrun.
  - cbn [writeToLocation]. unfold handle_change. cbn [stored docs events].
    rewrite lookup_insert_eq.
    rewrite change_callback_root_object by assumption.
    rewrite (assign_keys_fixed val (for_in_keys val) root' Hin).
    unfold stored. cbn [docs events]. now rewrite insert_insert_eq.
Qed.

Lemma root_merge_idempotent_witness :
  let w := mkWorld {[ "automerge:d" := VObj [("keep", VBool true); ("x", VNum 0)] ]} [] in
  exists w1,
    writeToLocation (LocationAutomerge "automerge:d" [])
                    (VObj [("x", VNum 1); ("7", VNum 2)]) VT_json w = (Returned tt, w1)
    /\ writeToLocation (LocationAutomerge "automerge:d" [])
                       (VObj [("x", VNum 1); ("7", VNum 2)]) VT_json w1 = (Returned tt, w1).
Proof.
  intros w.
  apply (root_merge_idempotent "automerge:d" (VObj [("x", VNum 1); ("7", VNum 2)])
           [("keep", VBool true); ("x", VNum 0)] w); reflexivity.
Defined.

(** ** More on the tree codec *)

Lemma lookup_in_values (k : string) (x : value) (ps : list (string * value)) :
  lookup_prop k ps = Some x -> In x (List.map snd ps).
Proof.
  induction ps as [|[k' v'] rest IH]; [discriminate|]. simpl.
  destruct (String.eqb k' k); [intros [= ->]; now left|]. intros H. right. auto.
Qed.

Lemma isAMFS_is_object (v : value) : isAMFS v = true -> is_object v = true.
Proof.
  rewrite isAMFS_unfold. intros H. apply orb_prop in H as [H|H].
  - now apply isAMFSFile_is_object.
  - now apply isAMFSDirectory_iff in H.
Qed.

Lemma isAMFSFile_bytes (bs : list Byte.byte) : isAMFSFile (VBytes bs) = false.
Proof. reflexivity. Qed.

(** X13: only objects are file trees: [null], [undefined], booleans, numbers
    and strings are rejected, and a byte sequence is accepted exactly when
    it is empty (then as an empty directory). *)
Theorem only_objects_are_trees :
  (forall v, isAMFS v = true -> is_object v = true)
  /\ (forall bs, isAMFS (VBytes bs) = true <-> bs = []).
Proof.
  split; [exact isAMFS_is_object|].
  intros bs. rewrite isAMFS_unfold, isAMFSFile_bytes. cbn [orb].
  rewrite isAMFSDirectory_iff. split.
  - intros [_ H]. destruct bs as [|b bs]; [reflexivity|].
    unfold Object_values in H. cbn [Object_entries List.map indexed snd] in H.
    apply Forall_inv in H. unfold byte_value in H. now rewrite isAMFS_number in H.
  - intros ->. split; [reflexivity|constructor].
Qed.

Lemma only_objects_are_trees_witness :
  is_object (VObj [("a", VObj [])]) = true
  /\ isAMFS (VStr "text") = false
  /\ isAMFS (VBytes [Byte.x00]) = false.
Proof.
  destruct only_objects_are_trees as [Hobj Hbytes].
  split; [now apply Hobj|]. split; [reflexivity|].
  destruct (isAMFS (VBytes [Byte.x00])) eqn:E; [|reflexivity].
  apply Hbytes in E. discriminate E.
Defined.

(** X14: the classification is unambiguous: a value that is a tree file is
    not a tree directory, because its [contentType] is a string, which is
    not a file tree. *)
Theorem file_is_not_directory (v : value) :
  isAMFSFile v = true -> isAMFSDirectory v = false.
Proof.
  intros H. apply isAMFSFile_iff in H as (ps & ct & Hps & Hct & _).
  destruct (isAMFSDirectory v) eqn:E; [|reflexivity].
  apply isAMFSDirectory_iff in E as [_ Hall].
  assert (Hv : Object_values v = List.map snd ps)
    by (destruct v; try discriminate Hps; injection Hps as ->; reflexivity).
  rewrite Hv, Stdlib.Lists.List.Forall_forall in Hall.
  specialize (Hall (VStr ct) (lookup_in_values _ _ _ Hct)).
  apply isAMFS_is_object in Hall. discriminate Hall.
Qed.

Lemma file_is_not_directory_witness :
  isAMFSDirectory (VObj [("contentType", VStr "text/plain"); ("contents", VStr "hi")])
  = false.
Proof. apply file_is_not_directory. reflexivity. Defined.

(** X15: a tree file is materialized by exactly one [writeFileSync] of its
    [contents], a string or a byte sequence, passed on unchanged; the
    [contentType] plays no part and no directory is created. *)
Theorem tree_file_written_verbatim (node : value) :
  isAMFSFile node = true ->
  exists contents,
    get_prop node "contents" = Ok contents
    /\ (typeof_is contents "string" || instanceof_Uint8Array contents) = true
    /\ forall path w,
         writeAMFS node path w = (Returned tt, logged w (EvWriteFileSync path contents)).
Proof.
  intros H. pose proof H as H'.
  apply isAMFSFile_iff in H' as (ps & ct & Hps & Hct & Hc).
  assert (exists c, lookup_prop "contents" ps = Some c
                    /\ (typeof_is c "string" || instanceof_Uint8Array c) = true)
    as (c & Hc' & Hty)
    by (destruct Hc as [[s Hs]|[bs Hbs]]; eexists; split; eauto).
  exists c. split; [now apply (get_prop_own node ps)|]. split; [exact Hty|].
  intros path w. rewrite writeAMFS_eq, H, (get_prop_own node ps _ c Hps Hc').
  reflexivity.
Qed.

Lemma tree_file_written_verbatim_witness :
  exists contents,
    get_prop (VObj [("contentType", VStr "image/png"); ("contents", VBytes [Byte.x89])])
             "contents" = Ok contents
    /\ (typeof_is contents "string" || instanceof_Uint8Array contents) = true
    /\ forall path w,
         writeAMFS (VObj [("contentType", VStr "image/png"); ("contents", VBytes [Byte.x89])])
                   path w
         = (Returned tt, logged w (EvWriteFileSync path contents)).
Proof. apply tree_file_written_verbatim. reflexivity. Defined.

Lemma prefix_refl (a : string) : String.prefix a a = true.
Proof. induction a as [|x a IH]; [reflexivity|]. now apply prefix_cons. Qed.

Lemma under_child (path name : string) (new : list event) :
  forallb (under (child_path path name)) new = true ->
  forallb (under path) new = true.
Proof.
  rewrite !forallb_forall. intros H e He. specialize (H e He).
  destruct e; try discriminate H; cbn [under] in *;
    (eapply prefix_trans; [apply prefix_self_append|exact H]).
Qed.

Lemma appended_appended (w : world) (a b : list event) :
  appended (appended w a) b = appended w (a ++ b)%list.
Proof. unfold appended. cbn [docs events]. now rewrite app_assoc. Qed.

Lemma forEach_under (path : string) (f : string -> value -> M unit)
  (ps : list (string * value)) :
  Forall (fun p => forall w, exists new,
              f (fst p) (snd p) w = (Returned tt, appended w new)
              /\ forallb (under path) new = true) ps ->
  forall w, exists new,
    forEach f ps w = (Returned tt, appended w new)
    /\ forallb (under path) new = true.
Proof.
  induction 1 as [|[name node] rest Hhd _ IH]; intros w.
  - exists []. unfold appended. rewrite app_nil_r. split; [now destruct w|reflexivity].
  - destruct (Hhd w) as (new1 & Hf & Hu1).
    destruct (IH (appended w new1)) as (new2 & Hr & Hu2).
    exists (new1 ++ new2)%list. cbn [forEach]. unfold bind. cbn [fst snd] in Hf.
    rewrite Hf, Hr, appended_appended. split; [reflexivity|].
    now rewrite forallb_app, Hu1, Hu2.
Qed.

Lemma children_under (path : string) (ps : list (string * value)) :
  Forall (fun p => isAMFS (snd p) = true ->
                   forall path w, exists new,
                     writeAMFS (snd p) path w = (Returned tt, appended w new)
                     /\ new <> [] /\ forallb (under path) new = true) ps ->
  Forall (fun x => isAMFS x = true) (List.map snd ps) ->
  Forall (fun p => forall w, exists new,
              writeAMFS (snd p) (child_path path (fst p)) w = (Returned tt, appended w new)
              /\ forallb (under path) new = true) ps.
Proof.
  induction ps as [|[name child] rest IHr]; intros IH Hall; constructor.
  - apply Forall_inv in IH, Hall. intros w0.
    destruct (IH Hall (child_path path name) w0) as (new & Hw & _ & Hu).
    exists new. split; [exact Hw|]. now apply (under_child path name).
  - apply IHr; eapply Forall_inv_tail; eauto.
Qed.

Lemma directory_under (path : string) (ps : list (string * value)) (w : world) :
  Forall (fun p => isAMFS (snd p) = true ->
                   forall path w, exists new,
                     writeAMFS (snd p) path w = (Returned tt, appended w new)
                     /\ new <> [] /\ forallb (under path) new = true) ps ->
  Forall (fun x => isAMFS x = true) (List.map snd ps) ->
  exists new,
    bind (emit (EvEnsureDirSync path))
         (fun _ => forEach (fun name child => writeAMFS child (child_path path name)) ps) w
    = (Returned tt, appended w new)
    /\ new <> [] /\ forallb (under path) new = true.
Proof.
  intros IH Hall.
  destruct (forEach_under path
              (fun name child => writeAMFS child (child_path path name)) ps
              (children_under path ps IH Hall)
              (appended w [EvEnsureDirSync path])) as (new & Hr & Hu).
  exists (EvEnsureDirSync path :: new). unfold bind. cbn [emit].
  change (mkWorld (docs w) (events w ++ [EvEnsureDirSync path])%list)
    with (appended w [EvEnsureDirSync path]).
  rewrite Hr, appended_appended. split; [reflexivity|]. split; [discriminate|].
  cbn [forallb under]. now rewrite prefix_refl, Hu.
Qed.

(** Materializing a file tree returns after at least one host call, all of
    them on paths that extend the destination path, and touches no
    document. *)
Lemma writeAMFS_under (node : value) :
  isAMFS node = true ->
  forall path w, exists new,
    writeAMFS node path w = (Returned tt, appended w new)
    /\ new <> [] /\ forallb (under path) new = true.
Proof.
  induction node as [| | b | n | s | bs | ps IH | len ps IH] using value_nested_ind;
    intros Hok path w; rewrite writeAMFS_eq;
    destruct (isAMFSFile _) eqn:Hfile.
  all: try (destruct (get_prop_object_ok _ "contents" (isAMFSFile_is_object _ Hfile))
              as [c ->]; exists [EvWriteFileSync path c];
            split; [reflexivity|]; split; [discriminate|];
            cbn [forallb under]; now rewrite prefix_refl).
  all: rewrite isAMFS_unfold, Hfile in Hok; cbn [orb] in Hok;
    apply isAMFSDirectory_iff in Hok as [Hobj Hall]; try discriminate Hobj.
  - destruct bs as [|b bs].
    + exists [EvEnsureDirSync path]. split; [reflexivity|]. split; [discriminate|].
      cbn [forallb under]. now rewrite prefix_refl.
    + unfold Object_values in Hall.
      cbn [Object_entries List.map indexed snd] in Hall.
      apply Forall_inv in Hall. unfold byte_value in Hall.
      now rewrite isAMFS_number in Hall.
  - now apply directory_under.
  - now apply directory_under.
Qed.

(** X16: a Tree-mode write to a file path checks the value before any host
    call: a value that is not a file tree raises the error and leaves the
    world as it was.  A file tree is materialized to the end, by at least
    one host call, each an [ensureDirSync] or a [writeFileSync] on a path
    that extends the destination path; no document changes and nothing is
    written to the streams. *)
Theorem tree_write_to_file (path : string) (val : value) (w : world) :
  (isAMFS val = false ->
   writeToLocation (LocationFile path) val VT_fs w = (Thrown (AMTError msg_not_amfs), w))
  /\ (isAMFS val = true ->
      exists new,
        writeToLocation (LocationFile path) val VT_fs w = (Returned tt, appended w new)
        /\ new <> [] /\ forallb (under path) new = true).
Proof.
  split; intros H; cbn [writeToLocation]; rewrite H; cbn [negb]; [reflexivity|].
  now apply writeAMFS_under.
Qed.

Lemma tree_write_to_file_witness :
  writeToLocation (LocationFile "out") (VObj [("a", VNum 1)]) VT_fs (mkWorld ∅ [])
  = (Thrown (AMTError msg_not_amfs), mkWorld ∅ [])
  /\ exists new,
       writeToLocation (LocationFile "out")
         (VObj [("d", VObj [("f", VObj [("contentType", VStr "t"); ("contents", VStr "c")])])])
         VT_fs (mkWorld ∅ [])
       = (Returned tt, appended (mkWorld ∅ []) new)
       /\ new <> [] /\ forallb (under "out") new = true.
Proof.
  split.
  - apply (proj1 (tree_write_to_file "out" (VObj [("a", VNum 1)]) (mkWorld ∅ []))).
    reflexivity.
  - apply (proj2 (tree_write_to_file "out"
             (VObj [("d", VObj [("f", VObj [("contentType", VStr "t"); ("contents", VStr "c")])])])
             (mkWorld ∅ []))).
    reflexivity.
Defined.

(** ** More on copying *)

(** X17: a one-shot copy from a document.  A document the repo does not
    have raises "document ... not found" and nothing happens.  Otherwise an
    exception of the read along the path or of the write is the outcome, and
    no confirmation is logged; after a write that returns, the confirmation
    "wrote ... to ..." is logged unless the destination is the pipe, and
    the process exits with status 0. *)
Theorem one_shot_document_copy
  (src_docUrl : string) (src_path : list string) (dst : Location) (type : ValueType)
  (changes : list value) (w : world) :
  is_raw type && is_automerge dst = false ->
  (docs w !! src_docUrl = None ->
   cpFromAutomerge src_docUrl src_path dst type false changes w
   = (Thrown (AMTError ("document " ++ src_docUrl ++ " not found")), w))
  /\ (forall doc e,
         docs w !! src_docUrl = Some doc -> truthy doc = true ->
         getAtPath doc src_path = Throw e ->
         cpFromAutomerge src_docUrl src_path dst type false changes w = (Thrown e, w))
  /\ (forall doc v,
         docs w !! src_docUrl = Some doc -> truthy doc = true ->
         getAtPath doc src_path = Ok v ->
         cpFromAutomerge src_docUrl src_path dst type false changes w
         = match writeToLocation dst v type w with
           | (Returned _, w1) =>
               (Exited 0,
                if is_pipe dst then w1
                else logged w1 (EvConsoleError
                                  ("wrote "
                                   ++ stringifyLocation (LocationAutomerge src_docUrl src_path)
                                   ++ " to " ++ stringifyLocation dst)))
           | other => other
           end).
Proof.
  intros Hallowed. unfold cpFromAutomerge. rewrite Hallowed.
  unfold handle_doc, onDoc, bind. split; [|split].
  - intros ->. reflexivity.
  - intros doc e -> -> ->. reflexivity.
  - intros doc v -> -> ->. cbn [negb lift ret].
    destruct (writeToLocation dst v type w) as [[[]|e|c] w1]; try reflexivity.
    now destruct (is_pipe dst).
Qed.

Lemma one_shot_document_copy_witness :
  let w := mkWorld {[ "automerge:s" := VObj [("t", VStr "hello")] ]} [] in
  cpFromAutomerge "automerge:gone" [] (LocationFile "out") VT_raw false [] w
  = (Thrown (AMTError "document automerge:gone not found"), w)
  /\ cpFromAutomerge "automerge:s" ["t"] (LocationFile "out") VT_raw false [] w
     = (Exited 0,
        appended w [EvWriteFile "out" (VStr "hello");
                    EvConsoleError "wrote automerge:s/t to out"]).
Proof.
  intros w. split.
  - apply (proj1 (one_shot_document_copy "automerge:gone" [] (LocationFile "out")
                    VT_raw [] w eq_refl)). reflexivity.
  - rewrite (proj2 (proj2 (one_shot_document_copy "automerge:s" ["t"] (LocationFile "out")
                             VT_raw [] w eq_refl))
               (VObj [("t", VStr "hello")]) (VStr "hello")); reflexivity.
Defined.

Section NeverExits.

Lemma bind_not_exited {A B : Type} (m : M A) (k : A -> M B) (w : world) :
  not_exited (m w) -> (forall a w1, not_exited (k a w1)) -> not_exited (bind m k w).
Proof.
  unfold not_exited, bind. intros Hm Hk code w'.
  destruct (m w) as [[a|e|c] w1]; [apply Hk|discriminate|].
  intros _. now apply (Hm c w1).
Qed.

Lemma emit_not_exited (e : event) (w : world) : not_exited (emit e w).
Proof. intros code w'. discriminate. Qed.

Lemma lift_not_exited {A : Type} (r : result A) (w : world) : not_exited (lift r w).
Proof. intros code w'. destruct r; discriminate. Qed.

Lemma forEach_not_exited (f : string -> value -> M unit) (ps : list (string * value)) :
  Forall (fun p => forall w, not_exited (f (fst p) (snd p) w)) ps ->
  forall w, not_exited (forEach f ps w).
Proof.
  induction 1 as [|[name node] rest Hhd _ IH]; intros w.
  - intros code w'. discriminate.
  - cbn [forEach]. apply bind_not_exited; [apply Hhd|intros _; apply IH].
Qed.

Lemma writeAMFS_not_exited (node : value) :
  forall path w, not_exited (writeAMFS node path w).
Proof.
  induction node as [| | b | n | s | bs | ps IH | len ps IH] using value_nested_ind;
    intros path w; rewrite writeAMFS_eq; destruct (isAMFSFile _).
  all: try (destruct (get_prop _ "contents"); intros code w'; discriminate).
  all: apply bind_not_exited; [apply emit_not_exited|intros _ w1].
  all: try (intros code w'; discriminate).
  - destruct s; intros code w'; discriminate.
  - apply forEach_not_exited. apply Stdlib.Lists.List.Forall_forall.
    intros p _ w2. apply emit_not_exited.
  - apply forEach_not_exited.
    induction IH as [|p rest Hp _ IHrest]; constructor; [intros w2; apply Hp|exact IHrest].
  - apply forEach_not_exited.
    induction IH as [|p rest Hp _ IHrest]; constructor; [intros w2; apply Hp|exact IHrest].
Qed.

Lemma handle_change_not_exited (docUrl : string) (fn : value -> result value) (w : world) :
  not_exited (handle_change docUrl fn w).
Proof.
  intros code w'. unfold handle_change.
  destruct (docs w !! docUrl) as [doc|]; [destruct (fn doc)|]; discriminate.
Qed.

(** [writeToLocation] never ends the process. *)
Lemma writeToLocation_not_exited (dst : Location) (val : value) (type : ValueType)
  (w : world) :
  not_exited (writeToLocation dst val type w).
Proof.
  destruct type, dst; cbn [writeToLocation];
    try apply handle_change_not_exited;
    try (intros code w'; discriminate).
  - destruct (negb (isAMFS val)); [intros code w'; discriminate|].
    apply writeAMFS_not_exited.
  - apply bind_not_exited; [|intros a w1; apply emit_not_exited].
    destruct (negb (typeof_is val "string") && negb (instanceof_Uint8Array val));
      intros code w'; discriminate.
  - apply bind_not_exited; [|intros a w1; apply emit_not_exited].
    destruct (negb (typeof_is val "string") && negb (instanceof_Uint8Array val));
      intros code w'; discriminate.
Qed.

Lemma confirmation_not_exited (dst : Location) (message : string) (w : world) :
  not_exited ((if negb (is_pipe dst) then emit (EvConsoleError message) else ret tt) w).
Proof. destruct (negb (is_pipe dst)); intros code w'; discriminate. Qed.

Lemma catchAMTErrors_not_exited (f : M unit) (w : world) :
  not_exited (f w) -> not_exited (catchAMTErrors f false w).
Proof.
  unfold not_exited, catchAMTErrors. intros Hf code w'.
  destruct (f w) as [[a|e|c] w1]; [discriminate| |now apply Hf].
  destruct e; discriminate.
Qed.

Lemma deliver_each_not_exited {A : Type} (listener : A -> M unit) (xs : list A) :
  (forall x w, not_exited (listener x w)) ->
  forall w, not_exited (deliver_each listener xs w).
Proof.
  intros Hl. induction xs as [|x rest IH]; intros w.
  - intros code w'. discriminate.
  - cbn [deliver_each]. apply bind_not_exited; [|intros _; apply IH].
    apply catchAMTErrors_not_exited, Hl.
Qed.

Lemma onDoc_not_exited (src_docUrl : string) (src_path : list string)
  (dst : Location) (type : ValueType) (doc : value) (w : world) :
  not_exited (onDoc src_docUrl src_path dst type doc w).
Proof.
  unfold onDoc. apply bind_not_exited; [apply lift_not_exited|intros v w1].
  apply bind_not_exited; [apply writeToLocation_not_exited|intros _ w2].
  apply confirmation_not_exited.
Qed.

Lemma deliver_not_exited (src_docUrl : string) (src_path : list string)
  (dst : Location) (type : ValueType) (changes : list value) :
  forall w, not_exited (deliver src_docUrl src_path dst type changes w).
Proof.
  induction changes as [|e_doc rest IH]; intros w.
  - intros code w'. discriminate.
  - cbn [deliver]. apply bind_not_exited; [|intros _; apply IH].
    unfold on_change. apply bind_not_exited; [intros code w'; discriminate|].
    intros _ w1. apply catchAMTErrors_not_exited, onDoc_not_exited.
Qed.

Variable JSON_parse : string -> result value.

Lemma onFile_not_exited (src_path : string) (dst : Location) (type : ValueType)
  (read : result string) (w : world) :
  not_exited (onFile JSON_parse src_path dst type read w).
Proof.
  unfold onFile. apply bind_not_exited; [apply lift_not_exited|intros contents w1].
  apply bind_not_exited.
  - destruct (is_raw type); [intros code w'; discriminate|apply lift_not_exited].
  - intros v w2. apply bind_not_exited; [apply writeToLocation_not_exited|intros _ w3].
    apply confirmation_not_exited.
Qed.

(** X18: a watcher on a document or on a file never calls [process.exit],
    whatever events arrive and whatever the copies do: such a run ends only
    by an exception. *)
Theorem watchers_never_exit
  (dst : Location) (type : ValueType) (w : world) :
  (forall src_docUrl src_path changes,
      not_exited (cpFromAutomerge src_docUrl src_path dst type true changes w))
  /\ (forall src_path read_now read_on_event,
         not_exited (cpFromFile JSON_parse src_path dst type true
                                read_now read_on_event w)).
Proof.
  split.
  - intros src_docUrl src_path changes. unfold cpFromAutomerge.
    destruct (is_raw type && is_automerge dst); [intros code w'; discriminate|].
    apply deliver_not_exited.
  - intros src_path read_now read_on_event. unfold cpFromFile.
    destruct (is_fs type); [intros code w'; discriminate|].
    apply deliver_each_not_exited. intros read w1. apply onFile_not_exited.
Qed.

End NeverExits.

Section CpCommand.

Variable JSON_parse : string -> result value.

(** X19: the [cp] command refuses, before anything is read or written,
    both flags given together, and Tree mode with a source that is a file
    path or the pipe. *)
Theorem cp_rejects (args : cp_args) (host : host_input) (w : world) :
  (args_raw args = true -> args_fs args = true ->
   cp JSON_parse args host w = (Thrown (AMTError msg_raw_and_fs), w))
  /\ (args_raw args = false -> args_fs args = true ->
      forall path, parseLocation (args_src args) = LocationFile path ->
      cp JSON_parse args host w = (Thrown (AMTError msg_fs_file_source), w))
  /\ (args_raw args = false -> args_fs args = true ->
      args_src args = "-" ->
      cp JSON_parse args host w = (Thrown (AMTError msg_fs_pipe_source), w)).
Proof.
  unfold cp. split; [|split].
  - intros -> ->. reflexivity.
  - intros -> -> path ->. reflexivity.
  - intros -> -> ->. reflexivity.
Qed.

Lemma deliver_lines_raw_echo (watch : bool) (lines : list string) :
  forall w,
    deliver_each (onPipeData JSON_parse LocationPipe watch VT_raw) lines w
    = (Returned tt,
       appended w (List.map (fun line => EvStdoutWrite (VStr line)) lines)).
Proof.
  induction lines as [|line rest IH]; intros w.
  - unfold appended. cbn. rewrite app_nil_r. now destruct w.
  - assert (Hstep : catchAMTErrors (onPipeData JSON_parse LocationPipe watch VT_raw line)
                                   false w
                    = (Returned tt, appended w [EvStdoutWrite (VStr line)]))
      by reflexivity.
    cbn [deliver_each List.map]. unfold bind at 1. rewrite Hstep.
    now rewrite IH, appended_appended.
Qed.

(** X20: a raw watch copy from standard input to standard output writes
    every line, in order and as it was read, without restoring the line
    terminators, logs nothing, and exits with status 0 when the input
    closes. *)
Theorem watch_stdin_raw_echo (stdin_data : string) (stdin_lines : list string)
  (w : world) :
  cpFromPipe JSON_parse LocationPipe true VT_raw stdin_data stdin_lines w
  = (Exited 0,
     appended w (List.map (fun line => EvStdoutWrite (VStr line)) stdin_lines)).
Proof.
  unfold cpFromPipe. cbn [is_fs]. unfold bind at 1.
  now rewrite deliver_lines_raw_echo.
Qed.

(** X21: a one-shot copy from standard input does not parse the input: the
    whole text is handed over as a string.  In structured mode the pipe
    therefore receives the JSON string literal of the input followed by a
    line feed, and a document root, which takes only objects, refuses it. *)
Theorem one_shot_stdin_unparsed (stdin_data : string) (stdin_lines : list string)
  (w : world) :
  cpFromPipe JSON_parse LocationPipe false VT_json stdin_data stdin_lines w
  = (Exited 0,
     logged w (EvStdoutWrite (VStr (quote stdin_data ++ JsString.str1 JsString.newline))))
  /\ (forall docUrl doc,
         docs w !! docUrl = Some doc ->
         cpFromPipe JSON_parse (LocationAutomerge docUrl []) false VT_json
                    stdin_data stdin_lines w
         = (Thrown (AMTError msg_root_object), w)).
Proof.
  split; [reflexivity|].
  intros docUrl doc Hdoc. unfold cpFromPipe, bind. cbn [is_fs writeToLocation].
  unfold handle_change. now rewrite Hdoc.
Qed.

(** X22: a one-shot copy from a file.  In raw mode to a file path the text
    read is written unchanged, the confirmation is logged and the process
    exits with status 0.  When the read fails, or in structured mode the
    text does not parse, that exception is the outcome and nothing is
    written or logged. *)
Theorem one_shot_file_copy (src_path : string) (dst : Location)
  (read_on_event : list (result string)) (w : world) :
  (forall dst_path contents,
      dst = LocationFile dst_path ->
      cpFromFile JSON_parse src_path dst VT_raw false (Ok contents) read_on_event w
      = (Exited 0,
         appended w [EvWriteFile dst_path (VStr contents);
                     EvConsoleError ("wrote " ++ src_path ++ " to " ++ dst_path)]))
  /\ (forall type e,
         is_fs type = false ->
         cpFromFile JSON_parse src_path dst type false (Throw e) read_on_event w
         = (Thrown e, w))
  /\ (forall contents e,
         JSON_parse contents = Throw e ->
         cpFromFile JSON_parse src_path dst VT_json false (Ok contents) read_on_event w
         = (Thrown e, w)).
Proof.
  split; [|split].
  - intros dst_path contents ->. unfold appended.
    change (events w ++ [EvWriteFile dst_path (VStr contents);
                         EvConsoleError ("wrote " ++ src_path ++ " to " ++ dst_path)])%list
      with (events w ++ ([EvWriteFile dst_path (VStr contents)]
                         ++ [EvConsoleError ("wrote " ++ src_path ++ " to " ++ dst_path)]))%list.
    rewrite app_assoc. reflexivity.
  - intros type e Htype. unfold cpFromFile. rewrite Htype. reflexivity.
  - intros contents e Hparse. unfold cpFromFile, onFile, bind. cbn [is_fs is_raw lift ret].
    now rewrite Hparse.
Qed.

End CpCommand.

Lemma cp_rejects_witness :
  let JSON_parse := fun _ : string => @Throw value (HostError "SyntaxError") in
  let host := mkHost [] (Ok "{}") [] "{}" [] in
  cp JSON_parse (mkArgs "in.json" "out" false true true) host (mkWorld ∅ [])
  = (Thrown (AMTError msg_raw_and_fs), mkWorld ∅ [])
  /\ cp JSON_parse (mkArgs "in.json" "out" true false true) host (mkWorld ∅ [])
     = (Thrown (AMTError msg_fs_file_source), mkWorld ∅ [])
  /\ cp JSON_parse (mkArgs "-" "out" false false true) host (mkWorld ∅ [])
     = (Thrown (AMTError msg_fs_pipe_source), mkWorld ∅ []).
Proof.
  intros JSON_parse host. split; [|split].
  - apply (proj1 (cp_rejects JSON_parse (mkArgs "in.json" "out" false true true) host (mkWorld ∅ [])));
      reflexivity.
  - apply (proj1 (proj2 (cp_rejects JSON_parse (mkArgs "in.json" "out" true false true) host
                           (mkWorld ∅ []))) eq_refl eq_refl "in.json"); reflexivity.
  - apply (proj2 (proj2 (cp_rejects JSON_parse (mkArgs "-" "out" false false true) host
                           (mkWorld ∅ [])))); reflexivity.
Defined.

Lemma one_shot_stdin_unparsed_witness :
  let JSON_parse := fun _ : string => @Throw value (HostError "SyntaxError") in
  let w := mkWorld {[ "automerge:d" := VObj [] ]} [] in
  cpFromPipe JSON_parse (LocationAutomerge "automerge:d" []) false VT_json
             "{}" [] w
  = (Thrown (AMTError msg_root_object), w).
Proof.
  intros JSON_parse w.
  apply (proj2 (one_shot_stdin_unparsed JSON_parse "{}" [] w) "automerge:d" (VObj [])).
  reflexivity.
Defined.

Lemma watchers_never_exit_witness :
  cpFromAutomerge "automerge:s" ["k"] LocationPipe VT_json true
                  [VObj [("k", VNum 1)]; VNull] (mkWorld ∅ [])
  <> (Exited 0, mkWorld ∅ []).
Proof.
  apply (proj1 (watchers_never_exit
                  (fun _ : string => @Throw value (HostError "SyntaxError"))
                  LocationPipe VT_json (mkWorld ∅ []))).
Defined.

Lemma one_shot_file_copy_witness :
  let parse := fun _ : string => @Throw value (HostError "SyntaxError") in
  cpFromFile parse "in.txt" (LocationFile "out.txt") VT_raw false (Ok "hello") []
             (mkWorld ∅ [])
  = (Exited 0,
     appended (mkWorld ∅ []) [EvWriteFile "out.txt" (VStr "hello");
                              EvConsoleError "wrote in.txt to out.txt"])
  /\ cpFromFile parse "in.txt" LocationPipe VT_json false (Ok "not json") []
                (mkWorld ∅ [])
     = (Thrown (HostError "SyntaxError"), mkWorld ∅ []).
Proof.
  intros parse. split.
  - apply (proj1 (one_shot_file_copy parse "in.txt" (LocationFile "out.txt") []
                    (mkWorld ∅ [])) "out.txt" "hello"). reflexivity.
  - apply (proj2 (proj2 (one_shot_file_copy parse "in.txt" LocationPipe []
                           (mkWorld ∅ []))) "not json"). reflexivity.
Defined.

(** ** Watching a file or the pipe *)

Section OtherWatchers.

Variable JSON_parse : string -> result value.
Variables (dst : Location) (type : ValueType).
Hypothesis not_tree : is_fs type = false.

Lemma deliver_each_caught {A : Type} (listener : A -> M unit) (x : A) (rest : list A)
  (message : string) (w w' : world) :
  listener x w = (Thrown (AMTError message), w') ->
  deliver_each listener (x :: rest) w
  = deliver_each listener rest (logged w' (EvConsoleError ("error: " ++ message))).
Proof.
  intros H. cbn [deliver_each]. unfold bind at 1.
  now rewrite (catchAMTErrors_caught _ _ _ _ H).
Qed.

Lemma deliver_each_rethrown {A : Type} (listener : A -> M unit) (x : A) (rest : list A)
  (e : exn) (w w' : world) :
  listener x w = (Thrown e, w') -> is_AMTError e = false ->
  deliver_each listener (x :: rest) w = (Thrown e, w').
Proof.
  intros H He. cbn [deliver_each]. unfold bind at 1.
  now rewrite (catchAMTErrors_rethrown _ _ _ _ _ H He).
Qed.

(** X23: the watchers on a file and on standard input treat an [AMTError]
    as the document watcher does: it is logged on the error stream and the
    events, or lines, that follow are still processed.  Any other exception
    of a file event ends the run; on standard input it also keeps the
    process from reaching its exit with status 0. *)
Theorem file_and_stdin_watchers_survive (w : world) :
  (forall src_path read_now read rest message w',
      onFile JSON_parse src_path dst type read w = (Thrown (AMTError message), w') ->
      cpFromFile JSON_parse src_path dst type true read_now (read :: rest) w
      = cpFromFile JSON_parse src_path dst type true read_now rest
                   (logged w' (EvConsoleError ("error: " ++ message))))
  /\ (forall stdin_data line rest message w',
         onPipeData JSON_parse dst true type line w = (Thrown (AMTError message), w') ->
         cpFromPipe JSON_parse dst true type stdin_data (line :: rest) w
         = cpFromPipe JSON_parse dst true type stdin_data rest
                      (logged w' (EvConsoleError ("error: " ++ message))))
  /\ (forall src_path read_now read rest e w',
         onFile JSON_parse src_path dst type read w = (Thrown e, w') ->
         is_AMTError e = false ->
         cpFromFile JSON_parse src_path dst type true read_now (read :: rest) w
         = (Thrown e, w'))
  /\ (forall stdin_data line rest e w',
         onPipeData JSON_parse dst true type line w = (Thrown e, w') ->
         is_AMTError e = false ->
         cpFromPipe JSON_parse dst true type stdin_data (line :: rest) w
         = (Thrown e, w')).
Proof.
  unfold cpFromFile, cpFromPipe. rewrite not_tree. repeat split.
  - intros src_path read_now read rest message w' H.
    now apply deliver_each_caught.
  - intros stdin_data line rest message w' H. unfold bind at 1 3.
    now rewrite (deliver_each_caught _ _ rest _ _ _ H).
  - intros src_path read_now read rest e w' H He.
    now apply deliver_each_rethrown.
  - intros stdin_data line rest e w' H He. unfold bind at 1.
    now rewrite (deliver_each_rethrown _ _ rest _ _ _ H He).
Qed.

End OtherWatchers.

Lemma file_and_stdin_watchers_survive_witness :
  let parse := fun _ : string => @Throw value (HostError "SyntaxError") in
  let w := mkWorld {[ "automerge:d" := VObj [("k", VNum 1)] ]} [] in
  let root := LocationAutomerge "automerge:d" [] in
  let refused := EvConsoleError ("error: " ++ msg_root_object) in
  cpFromFile parse "in.txt" root VT_raw true (Ok "text") [Ok "text"] w
  = (Returned tt, appended w [refused])
  /\ cpFromPipe parse root true VT_raw "a" ["a"; "b"] w
     = (Exited 0, appended w [refused; refused])
  /\ cpFromFile parse "in.json" LocationPipe VT_json true (Ok "x") [Ok "x"; Ok "y"] w
     = (Thrown (HostError "SyntaxError"), w)
  /\ cpFromPipe parse LocationPipe true VT_json "x" ["x"; "y"] w
     = (Thrown (HostError "SyntaxError"), w).
Proof.
  intros parse w root refused.
  pose proof (file_and_stdin_watchers_survive parse root VT_raw eq_refl) as Hraw.
  pose proof (file_and_stdin_watchers_survive parse LocationPipe VT_json eq_refl w)
    as (_ & _ & Hfile & Hstdin).
  split; [|split; [|split]].
  - eapply eq_trans.
    + apply (proj1 (Hraw w) "in.txt" (Ok "text") (Ok "text") [] msg_root_object w).
      reflexivity.
    + reflexivity.
  - eapply eq_trans.
    + apply (proj1 (proj2 (Hraw w)) "a" "a" ["b"] msg_root_object w). reflexivity.
    + eapply eq_trans.
      * apply (proj1 (proj2 (Hraw (logged w refused))) "a" "b" [] msg_root_object
                     (logged w refused)).
        reflexivity.
      * reflexivity.
  - apply (Hfile "in.json" (Ok "x") (Ok "x") [Ok "y"]); reflexivity.
  - apply (Hstdin "x" "x" ["y"]); reflexivity.
Defined.

(** ** Raw mode and missing keys *)

(** X24: in raw mode a string or a byte sequence is written to a file path
    or to the pipe exactly as it is, and nothing is appended to it; every
    other value raises the error and nothing is written. *)
Theorem raw_write_verbatim (val : value) (w : world) :
  ((typeof_is val "string" || instanceof_Uint8Array val) = true ->
   (forall path,
       writeToLocation (LocationFile path) val VT_raw w
       = (Returned tt, logged w (EvWriteFile path val)))
   /\ writeToLocation LocationPipe val VT_raw w
      = (Returned tt, logged w (EvStdoutWrite val)))
  /\ ((typeof_is val "string" || instanceof_Uint8Array val) = false ->
      forall dst, is_automerge dst = false ->
        writeToLocation dst val VT_raw w = (Thrown (AMTError msg_not_raw), w)).
Proof.
  split; intros H.
  - split; [intros path|]; destruct val; try discriminate H; reflexivity.
  - intros dst Hdst. destruct dst; [discriminate Hdst| |];
      destruct val; try discriminate H; reflexivity.
Qed.

Lemma raw_write_verbatim_witness :
  writeToLocation LocationPipe (VBytes [Byte.x68; Byte.x69]) VT_raw (mkWorld ∅ [])
  = (Returned tt, mkWorld ∅ [EvStdoutWrite (VBytes [Byte.x68; Byte.x69])])
  /\ writeToLocation (LocationFile "out") (VObj []) VT_raw (mkWorld ∅ [])
     = (Thrown (AMTError msg_not_raw), mkWorld ∅ []).
Proof.
  split.
  - apply (proj1 (raw_write_verbatim (VBytes [Byte.x68; Byte.x69]) (mkWorld ∅ []))).
    reflexivity.
  - apply (proj2 (raw_write_verbatim (VObj []) (mkWorld ∅ []))); reflexivity.
Defined.

Lemma serialize_none (gap indent key : string) (v : value) :
  serialize gap indent key v = None <-> v = VUndefined.
Proof.
  split; [|now intros ->].
  destruct v as [| | [] | n | s | bs | ps | len ps]; try discriminate; reflexivity.
Qed.

(** X25: the structured serialization produces no text only for
    [undefined]; so a structured one-shot copy of a key that the document
    does not have does not fail: it writes the text "undefined" and a line
    feed to the file, logs the confirmation and exits with status 0. *)
Theorem copy_of_missing_key
  (src_docUrl : string) (src_path : list string) (out : string) (doc : value)
  (changes : list value) (w : world) :
  docs w !! src_docUrl = Some doc -> truthy doc = true ->
  getAtPath doc src_path = Ok VUndefined ->
  (forall v space, JSON_stringify v space = None <-> v = VUndefined)
  /\ cpFromAutomerge src_docUrl src_path (LocationFile out) VT_json false changes w
     = (Exited 0,
        appended w
          [EvWriteFile out (VStr ("undefined" ++ JsString.str1 JsString.newline));
           EvConsoleError
             ("wrote " ++ stringifyLocation (LocationAutomerge src_docUrl src_path)
              ++ " to " ++ out)]).
Proof.
  intros Hdoc Htruthy Hget. split.
  - intros v space. apply serialize_none.
  - unfold cpFromAutomerge, handle_doc, onDoc, bind. cbn [is_raw andb].
    rewrite Hdoc, Htruthy, Hget. unfold appended.
    change (events w ++ [?a; ?b])%list with (events w ++ ([a] ++ [b]))%list.
    rewrite app_assoc. reflexivity.
Qed.

Lemma copy_of_missing_key_witness :
  cpFromAutomerge "automerge:s" ["nope"] (LocationFile "out.json") VT_json false []
                  (mkWorld {[ "automerge:s" := VObj [("k", VNum 1)] ]} [])
  = (Exited 0,
     mkWorld {[ "automerge:s" := VObj [("k", VNum 1)] ]}
             [EvWriteFile "out.json" (VStr ("undefined" ++ JsString.str1 JsString.newline));
              EvConsoleError "wrote automerge:s/nope to out.json"]).
Proof.
  destruct (copy_of_missing_key "automerge:s" ["nope"] "out.json"
              (VObj [("k", VNum 1)]) []
              (mkWorld {[ "automerge:s" := VObj [("k", VNum 1)] ]} []))
    as [_ H]; [reflexivity..|exact H].
Defined.
